(** * The quiz-chain orchestrator of llm-analysis-quiz, embedded in Rocq

    The development follows the Python sources:
    - [src/utils/helpers.py]       -> [Timer], [get_payload_size]
    - [src/solver/llm_client.py]   -> [analyze_text], [solve_math_problem]
    - [src/solver/task_handlers.py]-> the PDF, data-analysis and general handlers
    - [src/solver/quiz_solver.py]  -> [parse_quiz_task], [solve_task],
      [submit_answer], [solve_single_quiz], [solve_quiz_chain]

    Conventions of the embedding.
    - Text is [string]; a character is a code point below 256.
    - Wall-clock readings ([time.time()]) are rationals, in seconds.
    - Everything outside the repository (browser, language model, PDF and CSV
      readers, the checker endpoint, the HTML parser, Python's [float]) is a
      field of [Collaborators]; a call that raises is a call that returns
      [None], which is what every [try/except] of the sources turns it into.
    - Effects are threaded through a state monad over [World]: the clock, the
      chain's [Timer] object and the trace of I/O and log events. *)

From Stdlib Require Import String Ascii List Bool Arith ZArith QArith Qminmax Lia Lqa.
From Stdlib Require Import DecimalString.
Import ListNotations.

Close Scope Q_scope.
Local Open Scope string_scope.
Local Open Scope nat_scope.

(** ** Python string primitives *)

Module PyStr.

Definition code (c : ascii) : nat := nat_of_ascii c.

(** [str.isspace] on one character, which is also what [\s] matches in a
    [str] pattern and what [str.strip] removes. *)
Definition isspace (c : ascii) : bool :=
  let n := code c in
  ((9 <=? n) && (n <=? 13)) || ((28 <=? n) && (n <=? 32))
  || (n =? 133) || (n =? 160).

(** [\d] in a [str] pattern (the decimal digits below code point 256). *)
Definition isdigit (c : ascii) : bool :=
  let n := code c in (48 <=? n) && (n <=? 57).

(** [c.lower()] for the ASCII letters. *)
Definition lower (c : ascii) : ascii :=
  let n := code c in
  if (65 <=? n) && (n <=? 90) then ascii_of_nat (n + 32) else c.

(** [s.startswith(p)] *)
Fixpoint startswith (p s : string) : bool :=
  match p, s with
  | EmptyString, _ => true
  | String a p', String b s' => Ascii.eqb a b && startswith p' s'
  | String _ _, EmptyString => false
  end.

(** [p in s] *)
Fixpoint contains (p s : string) : bool :=
  startswith p s ||
  match s with
  | EmptyString => false
  | String _ s' => contains p s'
  end.

(** [s.endswith(p)] *)
Fixpoint endswith (p s : string) : bool :=
  String.eqb p s ||
  match s with
  | EmptyString => false
  | String _ s' => endswith p s'
  end.

(** [s.endswith((p1, p2, ...))] *)
Definition endswith_any (ps : list string) (s : string) : bool :=
  existsb (fun p => endswith p s) ps.

(** [s.split(sep)[-1]] for a one-character separator. *)
Fixpoint after_last (sep : ascii) (s : string) : string :=
  match s with
  | EmptyString => EmptyString
  | String c s' =>
      if contains (String sep EmptyString) s' then after_last sep s'
      else if Ascii.eqb c sep then s' else s
  end.

(** [s.split(sep)[0]] for a one-character separator. *)
Fixpoint before_first (sep : ascii) (s : string) : string :=
  match s with
  | EmptyString => EmptyString
  | String c s' =>
      if Ascii.eqb c sep then EmptyString else String c (before_first sep s')
  end.

(** [s.replace(c, "")] for a one-character [c]. *)
Fixpoint remove_char (x : ascii) (s : string) : string :=
  match s with
  | EmptyString => EmptyString
  | String c s' =>
      if Ascii.eqb c x then remove_char x s' else String c (remove_char x s')
  end.

Fixpoint lstrip (s : string) : string :=
  match s with
  | EmptyString => EmptyString
  | String c s' => if isspace c then lstrip s' else s
  end.

Fixpoint rstrip (s : string) : string :=
  match s with
  | EmptyString => EmptyString
  | String c s' =>
      match rstrip s' with
      | EmptyString => if isspace c then EmptyString else String c EmptyString
      | r => String c r
      end
  end.

(** [s.strip()] *)
Definition strip (s : string) : string := rstrip (lstrip s).

(** Truthiness of a [str] and of an [Optional[str]]. *)
Definition truthy (s : string) : bool :=
  match s with EmptyString => false | _ => true end.

Definition truthy_opt (o : option string) : bool :=
  match o with Some s => truthy s | None => false end.

(** [sep.join(parts)] *)
Definition join (sep : string) (parts : list string) : string :=
  String.concat sep parts.

(** The digit part of an [int] literal: digits, with single underscores
    allowed between two digits. [prev] tells whether the previous
    character was a digit. *)
Fixpoint int_digits (prev : bool) (acc : N) (s : string) : option N :=
  match s with
  | EmptyString => if prev then Some acc else None
  | String c s' =>
      if isdigit c then
        int_digits true (10 * acc + N.of_nat (code c - 48))%N s'
      else if Ascii.eqb c "_" then
        if prev then
          match s' with
          | String d _ => if isdigit d then int_digits false acc s' else None
          | EmptyString => None
          end
        else None
      else None
  end.

(** The white space [int()] skips at both ends of its argument: the
    ASCII white space and, below code point 256, the next-line character
    and the no-break space. The separators U+001C to U+001F, which
    [str.strip] removes, are not skipped by [int()]. *)
Definition int_space (c : ascii) : bool :=
  let n := code c in
  ((9 <=? n) && (n <=? 13)) || (n =? 32) || (n =? 133) || (n =? 160).

Fixpoint int_lstrip (s : string) : string :=
  match s with
  | EmptyString => EmptyString
  | String c s' => if int_space c then int_lstrip s' else s
  end.

Fixpoint int_rstrip (s : string) : string :=
  match s with
  | EmptyString => EmptyString
  | String c s' =>
      match int_rstrip s' with
      | EmptyString => if int_space c then EmptyString else String c EmptyString
      | r => String c r
      end
  end.

(** The number of digits of a literal, its underscores not counted. *)
Fixpoint digit_count (s : string) : N :=
  match s with
  | EmptyString => 0%N
  | String c s' => ((if isdigit c then 1 else 0) + digit_count s')%N
  end.

(** [sys.get_int_max_str_digits()], as Python sets it. *)
Definition max_str_digits : N := 4300%N.

(** The literal after the sign: refused when it has more digits than
    [max_str_digits], leading zeros included. *)
Definition int_literal (s : string) : option N :=
  if (max_str_digits <? digit_count s)%N then None
  else int_digits false 0%N s.

(** [int(s)] in base ten; [None] is [ValueError]. *)
Definition int (s : string) : option Z :=
  match int_rstrip (int_lstrip s) with
  | EmptyString => None
  | String c r =>
      if Ascii.eqb c "-" then
        option_map (fun n => (- Z.of_N n)%Z) (int_literal r)
      else if Ascii.eqb c "+" then
        option_map Z.of_N (int_literal r)
      else option_map Z.of_N (int_literal (String c r))
  end.

(** [str(z)] of an [int]. *)
Definition of_int (z : Z) : string := NilZero.string_of_int (Z.to_int z).

End PyStr.

(** ** The fragment of [re] used by the orchestrator

    Both patterns of [quiz_solver.py] are sequences of one-character classes,
    each taken once, optionally, or greedily repeated. The matcher backtracks
    the way [re] does: a greedy repetition first takes the longest run and
    gives characters back one at a time. A match is returned as the list of
    the pieces matched by the successive atoms. *)

Module Re.

Inductive atom : Type :=
| One  (cls : ascii -> bool)     (* a single character of the class *)
| Opt  (cls : ascii -> bool)     (* x?  *)
| Star (cls : ascii -> bool)     (* x*  *)
| Plus (cls : ascii -> bool).    (* x+  *)

Definition pattern := list atom.

(** Prepend a character to the first piece of a match. *)
Definition push (c : ascii) (m : list string) : list string :=
  match m with
  | [] => [String c EmptyString]
  | p :: m' => String c p :: m'
  end.

(** Greedy run of [cls], then the continuation [k] on what is left. *)
Fixpoint greedy (cls : ascii -> bool) (k : string -> option (list string))
         (s : string) : option (list string) :=
  match s with
  | String c s' =>
      if cls c then
        match greedy cls k s' with
        | Some m => Some (push c m)
        | None => option_map (cons EmptyString) (k s)
        end
      else option_map (cons EmptyString) (k s)
  | EmptyString => option_map (cons EmptyString) (k s)
  end.

(** Match of the pattern anchored at the start of [s]. *)
Fixpoint match_here (p : pattern) : string -> option (list string) :=
  match p with
  | [] => fun _ => Some []
  | One cls :: p' => fun s =>
      match s with
      | String c s' =>
          if cls c then option_map (cons (String c EmptyString)) (match_here p' s')
          else None
      | EmptyString => None
      end
  | Opt cls :: p' => fun s =>
      let skip := option_map (cons EmptyString) (match_here p' s) in
      match s with
      | String c s' =>
          if cls c then
            match match_here p' s' with
            | Some m => Some (String c EmptyString :: m)
            | None => skip
            end
          else skip
      | EmptyString => skip
      end
  | Star cls :: p' => greedy cls (match_here p')
  | Plus cls :: p' => fun s =>
      match s with
      | String c s' =>
          if cls c then option_map (push c) (greedy cls (match_here p') s')
          else None
      | EmptyString => None
      end
  end.

(** [re.search]: the match at the leftmost position that has one. *)
Fixpoint search (p : pattern) (s : string) : option (list string) :=
  match match_here p s with
  | Some m => Some m
  | None =>
      match s with
      | EmptyString => None
      | String _ s' => search p s'
      end
  end.

(** [m.group(0)] *)
Definition group0 (m : list string) : string := String.concat "" m.

(** Character classes. *)
Definition lit (x : ascii) : ascii -> bool := fun c => Ascii.eqb c x.
Definition lit_i (x : ascii) : ascii -> bool :=
  fun c => Ascii.eqb (PyStr.lower c) (PyStr.lower x).

(** A literal word, case-sensitive or under [re.IGNORECASE]. *)
Fixpoint word (s : string) : pattern :=
  match s with
  | EmptyString => []
  | String c s' => One (lit c) :: word s'
  end.

Fixpoint word_i (s : string) : pattern :=
  match s with
  | EmptyString => []
  | String c s' => One (lit_i c) :: word_i s'
  end.

End Re.

(** ** Data of the orchestrator *)

Definition nl : string := String (ascii_of_nat 10) EmptyString.
Definition dquote : ascii := ascii_of_nat 34.
Definition backslash : ascii := ascii_of_nat 92.

(** [src/config.py]: the two application settings the solver reads. *)
Module Settings.
Record t : Type := mk { timeout_seconds : Z; max_payload_size : Z }.
Definition default : t :=
  {| timeout_seconds := 180; max_payload_size := 1048576 |}.
End Settings.

(** [src/api/models.py], [SubmitResponse]: the checker's verdict. *)
Module SubmitResponse.
Record t : Type := mk {
  correct : bool;
  url : option string;
  reason : option string
}.
End SubmitResponse.

(** [helpers.Timer]: the fields of the object. *)
Record Timer : Type := mkTimer {
  timeout_seconds : Z;
  start_time : option Q;
  end_time : option Q
}.

(** Truthiness of a [float]: [0.0] is false. *)
Definition float_truthy (x : Q) : bool := negb (Qeq_bool x 0).

(** [float(z)] of an [int], as the mixed arithmetic of [int] and [float]
    converts it: exact up to 53 significant bits, and rounded to the nearest
    number of 53 bits beyond, ties to even. (Readings of the clock and their
    differences are exact rationals; only this conversion is rounded.) *)
Definition float_of_int (z : Z) : Q :=
  let a := Z.abs z in
  let e := (Z.log2 a - 52)%Z in
  if (e <=? 0)%Z then inject_Z z
  else
    let q := Z.shiftr a e in
    let r := Z.land a (Z.ones e) in
    let half := Z.shiftl 1 (e - 1) in
    let q' := if (r <? half)%Z then q
              else if (half <? r)%Z then (q + 1)%Z
              else if Z.even q then q else (q + 1)%Z in
    inject_Z (Z.sgn z * Z.shiftl q' e).

(** [max(a, b)] of Python: [b] only when [b > a]. *)
Definition py_max (a b : Q) : Q := if Qle_bool b a then a else b.

(** [x[i]] on a sequence, with Python's negative indices; [None] is
    [IndexError]. *)
Definition py_index {A : Type} (l : list A) (i : Z) : option A :=
  if (i <? 0)%Z then
    if (- i <=? Z.of_nat (List.length l))%Z
    then nth_error l (Z.to_nat (Z.of_nat (List.length l) + i))
    else None
  else nth_error l (Z.to_nat i).

Section Model.

(** The values of Python's [float]. *)
Context {F : Type}.

(** What a handler returns when it does not fail: [analyze_text] gives a
    [str], [solve_math_problem] an [int], a [float] or a [str]. *)
Inductive Answer : Type :=
| AStr (s : string)
| AInt (z : Z)
| AFloat (x : F).

(** The dictionary built by [submit_answer]. *)
Record Payload : Type := mkPayload {
  p_email : string;
  p_secret : string;
  p_url : string;
  p_answer : Answer
}.

(** The lines written to the logger by [quiz_solver.py], with the values
    they print. *)
Inductive LogMsg : Type :=
| LogSolvingQuiz (quiz_count : nat) (current_url : string)
| LogTimeRemaining (r : Q)
| LogChainCompleted           (* "Quiz chain completed or no more URLs" *)
| LogChainTimedOut            (* "Quiz chain timed out" *)
| LogCompletedQuizzes (quiz_count : nat)
| LogFetchFailed              (* "Failed to fetch quiz page" *)
| LogParseFailed              (* "Failed to parse quiz task" *)
| LogTask (description : string)
| LogSolveFailed              (* "Failed to solve task" *)
| LogAnswer (a : Answer)
| LogNoSubmitUrl              (* "No submit URL found" *)
| LogCorrect                  (* "Answer was CORRECT!" *)
| LogIncorrect (reason : option string)
| LogPayloadTooLarge (payload_size : nat)
| LogSubmitting (submit_url : string)
| LogPayloadSize (payload_size : nat)
| LogSubmitFailed (status_code : Z)
| LogSubmitError.             (* "Error submitting answer: ..." *)

(** What the program does to the outside, in the order it does it. *)
Inductive Event : Type :=
| EvNavigate (url : string)
| EvExtractInstructions
| EvPageContent
| EvChat (messages : list (string * string))
| EvDownload (url path : string)
| EvPdfOpen (path : string)
| EvPdfPage (path : string) (index : Z)
| EvReadCsv (data : string)
| EvPost (submit_url : string) (payload : Payload)
| EvLog (m : LogMsg).

(** The state the program runs in; the newest event is the head of
    [trace]. *)
Record World : Type := mkWorld {
  now : Q;
  timer : Timer;
  trace : list Event
}.

(** Outcome of [client.post] followed by [response.json()] and the
    construction of the [SubmitResponse]. *)
Inductive PostResult : Type :=
| PostRaised                                  (* transport error *)
| PostStatus (status_code : Z) (verdict : option SubmitResponse.t).
    (* [verdict] is [None] when the body is not a valid verdict *)

(** Everything the solver calls that is not in the repository. An answer
    may depend on the time of the call and on all that happened before
    it ([past], newest event first). *)
Record Collaborators : Type := mkCollaborators {
  (* wall-clock time that passes before the next observation *)
  delay : forall (t : Q) (past : list Event), Q;
  (* BrowserHandler *)
  navigate_to : forall (t : Q) (past : list Event), string -> bool;
  extract_quiz_instructions : forall (t : Q) (past : list Event), option string;
  get_page_content : forall (t : Q) (past : list Event), string;
  browser_download : forall (t : Q) (past : list Event), string -> string -> bool;
  (* BeautifulSoup(content, 'html.parser'): get_text(separator, strip) and
     the href of every anchor that has one, in document order *)
  soup_get_text : string -> string;
  soup_hrefs : string -> list string;
  (* openai chat completion: the content of the first choice *)
  chat_completion : forall (t : Q) (past : list Event),
                      list (string * string) -> option string;
  (* PdfReader(path).pages, each with the result of extract_text() *)
  pdf_pages : forall (t : Q) (past : list Event),
                string -> option (list (option string));
  (* pandas: read_csv(...).to_string() *)
  read_csv : forall (t : Q) (past : list Event), string -> option string;
  (* json.dumps(json.loads(data), indent=2) *)
  json_reformat : string -> option string;
  (* httpx POST to the checker *)
  http_post : forall (t : Q) (past : list Event),
                string -> Payload -> PostResult;
  (* float(s), and the JSON text of a float *)
  py_float : string -> option F;
  json_float : F -> string;
  (* str() of a list of paths *)
  repr_paths : list string -> string
}.

Variable env : Collaborators.
Variable settings : Settings.t.

(** *** The effect monad *)

Definition M (A : Type) : Type := World -> A * World.

Definition ret {A : Type} (a : A) : M A := fun w => (a, w).

Definition bind {A B : Type} (m : M A) (f : A -> M B) : M B :=
  fun w => let (a, w') := m w in f a w'.

Notation "x <- m ;; k" := (bind m (fun x => k))
  (at level 61, m at next level, right associativity).
Notation "m ;;; k" := (bind m (fun _ => k))
  (at level 61, right associativity).

(** Time passes. *)
Definition pass (w : World) : World :=
  {| now := (now w + delay env (now w) (trace w))%Q;
     timer := timer w; trace := trace w |}.

Definition record (e : Event) (w : World) : World :=
  {| now := now w; timer := timer w; trace := e :: trace w |}.

(** [time.time()] *)
Definition time_time : M Q := fun w => let w' := pass w in (now w', w').

(** A call to a collaborator: its answer is fixed by the moment it is
    called at, the call is recorded, and it takes time. *)
Definition call {A : Type} (e : Event) (oracle : Q -> list Event -> A)
  : M A :=
  fun w => (oracle (now w) (trace w), pass (record e w)).

(** An action that is recorded and takes no time of its own. *)
Definition emit (e : Event) : M unit := fun w => (tt, record e w).

Definition log (m : LogMsg) : M unit := emit (EvLog m).

Definition set_timer (f : Timer -> Timer) : M unit :=
  fun w => (tt, {| now := now w; timer := f (timer w); trace := trace w |}).

(** *** [helpers.Timer] *)

(** [Timer(timeout_seconds=...)] *)
Definition Timer_init (timeout : Z) : M unit :=
  set_timer (fun _ => mkTimer timeout None None).

(** [Timer.__enter__] *)
Definition Timer_enter : M unit :=
  t <- time_time ;;
  set_timer (fun tm => mkTimer (timeout_seconds tm) (Some t) (end_time tm)).

(** [Timer.__exit__] *)
Definition Timer_exit : M unit :=
  t <- time_time ;;
  set_timer (fun tm => mkTimer (timeout_seconds tm) (start_time tm) (Some t)).

(** [Timer.elapsed] *)
Definition elapsed : M Q := fun w =>
  match start_time (timer w) with
  | None => (0%Q, w)
  | Some s =>
      let (current, w') :=
        match end_time (timer w) with
        | Some e => if float_truthy e then ret e w else time_time w
        | None => time_time w
        end in
      ((current - s)%Q, w')
  end.

(** [Timer.is_timeout] *)
Definition is_timeout : M bool :=
  e <- elapsed ;;
  fun w => (Qle_bool (inject_Z (timeout_seconds (timer w))) e, w).

(** [Timer.remaining]: the budget is an [int] and the elapsed time a
    [float], so the budget is converted before the subtraction. *)
Definition remaining : M Q :=
  e <- elapsed ;;
  fun w => (py_max 0 (float_of_int (timeout_seconds (timer w)) - e)%Q, w).

(** *** [helpers.get_payload_size] *)

Definition hex_digit (n : nat) : ascii :=
  if n <? 10 then ascii_of_nat (48 + n) else ascii_of_nat (87 + n).

(** One character of a string under [json.dumps] ([ensure_ascii=True]):
    everything outside [' '..'~'], the quote and the backslash are
    escaped. The characters of the embedding are below code point 256,
    so the longest escape is the six bytes of [\u00XX]. *)
Definition json_escape_char (c : ascii) : string :=
  let n := PyStr.code c in
  if Ascii.eqb c dquote then String backslash (String dquote EmptyString)
  else if Ascii.eqb c backslash then String backslash (String backslash EmptyString)
  else if n =? 10 then String backslash "n"
  else if n =? 13 then String backslash "r"
  else if n =? 9 then String backslash "t"
  else if n =? 12 then String backslash "f"
  else if n =? 8 then String backslash "b"
  else if (32 <=? n) && (n <=? 126) then String c EmptyString
  else String backslash
         ("u00" ++ String (hex_digit (n / 16)) (String (hex_digit (n mod 16)) EmptyString)).

Fixpoint json_escape (s : string) : string :=
  match s with
  | EmptyString => EmptyString
  | String c s' => json_escape_char c ++ json_escape s'
  end.

Definition json_string (s : string) : string :=
  String dquote (json_escape s ++ String dquote EmptyString).

Definition json_answer (a : Answer) : string :=
  match a with
  | AStr s => json_string s
  | AInt z => PyStr.of_int z
  | AFloat x => json_float env x
  end.

(** [json.dumps(payload)] *)
Definition json_dumps (p : Payload) : string :=
  "{" ++ json_string "email" ++ ": " ++ json_string (p_email p) ++ ", "
      ++ json_string "secret" ++ ": " ++ json_string (p_secret p) ++ ", "
      ++ json_string "url" ++ ": " ++ json_string (p_url p) ++ ", "
      ++ json_string "answer" ++ ": " ++ json_answer (p_answer p) ++ "}".

(** [len(s.encode('utf-8'))] *)
Fixpoint utf8_len (s : string) : nat :=
  match s with
  | EmptyString => 0
  | String c s' => (if PyStr.code c <? 128 then 1 else 2) + utf8_len s'
  end.

Definition get_payload_size (data : Payload) : nat :=
  utf8_len (json_dumps data).

(** *** [llm_client.LLMClient] *)

Definition system_prompt : string :=
  "You are a helpful assistant that solves data analysis tasks. Provide concise, accurate answers.".

(** [analyze_text(prompt, context)]: one chat completion; no answer when
    the call raises or the reply has no content. *)
Definition analyze_text (prompt : string) (context : option string)
  : M (option string) :=
  let messages :=
    match context with
    | Some c =>
        if PyStr.truthy c then
          [("system", system_prompt);
           ("user", "Context:" ++ nl ++ c ++ nl ++ nl ++ "Task:" ++ nl ++ prompt)]
        else [("user", prompt)]
    | None => [("user", prompt)]
    end in
  call (EvChat messages) (fun t past => chat_completion env t past messages).

(** The parsing at the end of [solve_math_problem]: the stripped reply
    without its commas is read as a [float] when it has a dot and as an
    [int] otherwise; on [ValueError] the stripped reply is kept. *)
Definition parse_number (response : string) : Answer :=
  let response := PyStr.strip response in
  let clean_num := PyStr.remove_char "," response in
  if PyStr.contains "." clean_num then
    match py_float env clean_num with
    | Some x => AFloat x
    | None => AStr response
    end
  else
    match PyStr.int clean_num with
    | Some z => AInt z
    | None => AStr response
    end.

(** [solve_math_problem(problem, data)] *)
Definition solve_math_problem (problem : string) (data : option string)
  : M (option Answer) :=
  let prompt :=
    "Solve this problem and provide ONLY the final answer, no explanation:"
    ++ nl ++ nl ++ "Problem: " ++ problem ++ nl in
  let prompt :=
    if PyStr.truthy_opt data
    then prompt ++ nl ++ "Data:" ++ nl ++ match data with Some d => d | None => "" end
    else prompt in
  let prompt :=
    prompt ++ nl ++ nl
    ++ "Provide only the numerical answer or the exact answer requested, nothing else." in
  response <- analyze_text prompt None ;;
  match response with
  | Some r => if PyStr.truthy r then ret (Some (parse_number r)) else ret None
  | None => ret None
  end.

(** *** [task_handlers] *)

Definition truthy_int (z : Z) : bool := negb (z =? 0)%Z.

(** [page.extract_text()] for each page in turn, the accesses recorded;
    [None] as soon as one raises. *)
Fixpoint extract_all (pdf_path : string) (index : Z)
         (pages : list (option string)) : M (option (list string)) :=
  match pages with
  | [] => ret (Some [])
  | p :: rest =>
      emit (EvPdfPage pdf_path index) ;;;
      match p with
      | None => ret None
      | Some t =>
          r <- extract_all pdf_path (index + 1)%Z rest ;;
          ret (option_map (cons t) r)
      end
  end.

(** The text the PDF handler extracts: one page when [page_num] is truthy,
    all pages joined by newlines otherwise. *)
Definition pdf_text (pdf_path : string) (pages : list (option string))
           (page_num : option Z) : M (option string) :=
  let all_pages :=
    r <- extract_all pdf_path 0%Z pages ;;
    ret (option_map (PyStr.join nl) r) in
  match page_num with
  | Some n =>
      if truthy_int n then
        emit (EvPdfPage pdf_path (n - 1)%Z) ;;;
        match py_index pages (n - 1)%Z with
        | Some (Some t) => ret (Some t)
        | _ => ret None
        end
      else all_pages
  | None => all_pages
  end.

(** [PDFProcessingHandler.handle], on the context
    [{'pdf_path': ..., 'page_number': ...}]. The path given by
    [solve_task] is a [Path], which is always truthy. *)
Definition PDFProcessingHandler_handle (task_description : string)
           (pdf_path : string) (page_number : option Z) : M (option Answer) :=
  reader <- call (EvPdfOpen pdf_path) (fun t past => pdf_pages env t past pdf_path) ;;
  match reader with
  | None => ret None
  | Some pages =>
      text <- pdf_text pdf_path pages page_number ;;
      match text with
      | None => ret None
      | Some text =>
          answer <- analyze_text task_description
                      (Some ("PDF Content:" ++ nl ++ text)) ;;
          ret (option_map AStr answer)
      end
  end.

(** [DataAnalysisHandler.handle], on the context
    [{'data': ..., 'data_type': ...}]. *)
Definition DataAnalysisHandler_handle (task_description : string)
           (data : string) (data_type : string) : M (option Answer) :=
  data_str <-
    (if String.eqb data_type "csv" then
       call (EvReadCsv data) (fun t past => read_csv env t past data)
     else if String.eqb data_type "json" then
       ret (json_reformat env data)
     else ret (Some data)) ;;
  match data_str with
  | None => ret None
  | Some data_str => solve_math_problem task_description (Some data_str)
  end.

(** [GeneralTaskHandler.handle], on the context
    [{'task': ..., 'content': ..., 'files': ...}]: the reply of the model
    is the answer, as it is. *)
Definition GeneralTaskHandler_handle (task_description : string)
           (task content : string) (files : list string) : M (option Answer) :=
  let items :=
    List.concat
      [ if PyStr.truthy task then ["task: " ++ task] else [];
        if PyStr.truthy content then ["content: " ++ content] else [];
        match files with
        | [] => []
        | _ => ["files: " ++ repr_paths env files]
        end ] in
  let context_str := PyStr.join nl items in
  answer <- analyze_text task_description
              (if PyStr.truthy context_str then Some context_str else None) ;;
  ret (option_map AStr answer).

(** *** [quiz_solver.QuizSolver] *)

(** The dictionary returned by [fetch_quiz_page]. *)
Record QuizData : Type := mkQuizData {
  qd_content : string;
  qd_html : string;
  qd_url : string
}.

(** The dictionary returned by [parse_quiz_task]. *)
Record TaskInfo : Type := mkTaskInfo {
  task_description : string;
  raw_content : string;
  submit_url : option string;
  file_urls : list string;
  ti_html : string
}.

(** [fetch_quiz_page]; a browser session that cannot be started is a
    navigation that fails. *)
Definition fetch_quiz_page (url : string) : M (option QuizData) :=
  success <- call (EvNavigate url) (fun t past => navigate_to env t past url) ;;
  if negb success then ret None
  else
    content <- call EvExtractInstructions (extract_quiz_instructions env) ;;
    match content with
    | None => ret None
    | Some content =>
        if negb (PyStr.truthy content) then ret None
        else
          full_html <- call EvPageContent (get_page_content env) ;;
          ret (Some (mkQuizData content full_html url))
    end.

(** The negated class of the submit pattern: anything but whitespace,
    the two angle brackets and the double quote. *)
Definition url_char (c : ascii) : bool :=
  negb (PyStr.isspace c || Ascii.eqb c "<" || Ascii.eqb c ">"
        || Ascii.eqb c dquote).

(** The pattern searched in [content]: [http], an optional [s], [://],
    one or more characters of the class, [/submit], then any number of
    characters of the class. *)
Definition submit_pattern : Re.pattern :=
  (Re.word "http" ++ [Re.Opt (Re.lit "s")] ++ Re.word "://"
   ++ [Re.Plus url_char] ++ Re.word "/submit" ++ [Re.Star url_char])%list.

(** [r'page\s+(\d+)'] under [re.IGNORECASE]. *)
Definition page_pattern : Re.pattern :=
  (Re.word_i "page" ++ [Re.Plus PyStr.isspace; Re.Plus PyStr.isdigit])%list.

(** [m.group(1)] of a match of [page_pattern]: the piece of [(\d+)]. *)
Definition page_group1 (m : list string) : string := nth 5 m "".

Definition data_file_extensions : list string :=
  [".pdf"; ".csv"; ".json"; ".xlsx"; ".txt"].

(** The test of the link loop: [any(ext in href for ext in [...])]. *)
Definition is_data_file_link (href : string) : bool :=
  existsb (fun ext => PyStr.contains ext href) data_file_extensions.

(** [parse_quiz_task]. The HTML parser is taken to accept the content
    it is given: [soup_get_text] and [soup_hrefs] always answer. *)
Definition parse_quiz_task (quiz_data : QuizData) : M (option TaskInfo) :=
  let content := qd_content quiz_data in
  let html := qd_html quiz_data in
  let text_content := soup_get_text env content in
  let submit_url := option_map Re.group0 (Re.search submit_pattern content) in
  let file_urls := filter is_data_file_link (soup_hrefs env content) in
  description <- analyze_text
    "Extract the main question or task from this quiz. Be concise and specific."
    (Some text_content) ;;
  ret (Some (mkTaskInfo
               (if PyStr.truthy_opt description
                then match description with Some d => d | None => text_content end
                else text_content)
               text_content submit_url file_urls html)).

(** [str(Path('downloads') / filename)] *)
Definition download_path (filename : string) : string :=
  if String.eqb filename "" || String.eqb filename "." then "downloads"
  else "downloads/" ++ filename.

(** [download_file]; a directory that cannot be created is a download
    that fails. *)
Definition download_file (url : string) : M (option string) :=
  let filename := PyStr.before_first "?" (PyStr.after_last "/" url) in
  let file_path := download_path filename in
  success <- call (EvDownload url file_path)
               (fun t past => browser_download env t past url file_path) ;;
  if success then ret (Some file_path) else ret None.

(** The download loop of [solve_task]. *)
Fixpoint download_all (urls : list string) : M (list string) :=
  match urls with
  | [] => ret []
  | file_url :: rest =>
      file_path <- download_file file_url ;;
      files <- download_all rest ;;
      ret (match file_path with
           | Some f => f :: files
           | None => files
           end)
  end.

(** The handler chosen by [solve_task], with the context it is given. *)
Inductive Dispatch : Type :=
| UsePdf (pdf_file : string) (page_num : option Z)
| UseAnalysis (data : string) (data_type : string)
| UseGeneral.

(** The [if/elif/else] of [solve_task]; [None] when the branch taken
    raises ([int(...)] on the page number, [downloaded_files[0]]). *)
Definition dispatch (raw_content : string) (downloaded_files : list string)
  : option Dispatch :=
  match find (PyStr.endswith ".pdf") downloaded_files with
  | Some pdf_file =>
      match Re.search page_pattern raw_content with
      | Some m =>
          match PyStr.int (page_group1 m) with
          | Some n => Some (UsePdf pdf_file (Some n))
          | None => None
          end
      | None => Some (UsePdf pdf_file None)
      end
  | None =>
      if existsb (PyStr.endswith_any [".csv"; ".json"]) downloaded_files then
        match downloaded_files with
        | data_file :: _ =>
            Some (UseAnalysis data_file
                    (if PyStr.endswith ".csv" data_file then "csv" else "json"))
        | [] => None
        end
      else Some UseGeneral
  end.

(** [solve_task] *)
Definition solve_task (task_info : TaskInfo) : M (option Answer) :=
  downloaded_files <- download_all (file_urls task_info) ;;
  match dispatch (raw_content task_info) downloaded_files with
  | Some (UsePdf pdf_file page_num) =>
      PDFProcessingHandler_handle (task_description task_info) pdf_file page_num
  | Some (UseAnalysis data data_type) =>
      DataAnalysisHandler_handle (task_description task_info) data data_type
  | Some UseGeneral =>
      GeneralTaskHandler_handle (task_description task_info)
        (task_description task_info) (raw_content task_info) downloaded_files
  | None => ret None
  end.

(** [submit_answer] *)
Definition submit_answer (submit_url email secret quiz_url : string)
           (answer : Answer) : M (option SubmitResponse.t) :=
  let payload := mkPayload email secret quiz_url answer in
  let payload_size := get_payload_size payload in
  if (Settings.max_payload_size settings <? Z.of_nat payload_size)%Z then
    log (LogPayloadTooLarge payload_size) ;;;
    ret None
  else
    log (LogSubmitting submit_url) ;;;
    log (LogPayloadSize payload_size) ;;;
    response <- call (EvPost submit_url payload)
                  (fun t past => http_post env t past submit_url payload) ;;
    match response with
    | PostRaised => log LogSubmitError ;;; ret None
    | PostStatus status_code verdict =>
        if (status_code =? 200)%Z then
          match verdict with
          | Some v => ret (Some v)
          | None => log LogSubmitError ;;; ret None
          end
        else log (LogSubmitFailed status_code) ;;; ret None
    end.

(** [solve_single_quiz]: the next quiz URL, or [None]. *)
Definition solve_single_quiz (quiz_url email secret : string)
           (time_remaining : Q) : M (option string) :=
  quiz_data <- fetch_quiz_page quiz_url ;;
  match quiz_data with
  | None => log LogFetchFailed ;;; ret None
  | Some quiz_data =>
      task_info <- parse_quiz_task quiz_data ;;
      match task_info with
      | None => log LogParseFailed ;;; ret None
      | Some task_info =>
          log (LogTask (String.substring 0 100 (task_description task_info))) ;;;
          answer <- solve_task task_info ;;
          match answer with
          | None => log LogSolveFailed ;;; ret None
          | Some answer =>
              log (LogAnswer answer) ;;;
              match submit_url task_info with
              | None => log LogNoSubmitUrl ;;; ret None
              | Some submit_url =>
                  if negb (PyStr.truthy submit_url) then
                    log LogNoSubmitUrl ;;; ret None
                  else
                    response <- submit_answer submit_url email secret quiz_url answer ;;
                    match response with
                    | Some response =>
                        (if SubmitResponse.correct response
                         then log LogCorrect
                         else log (LogIncorrect (SubmitResponse.reason response))) ;;;
                        ret (SubmitResponse.url response)
                    | None => ret None
                    end
              end
          end
      end
  end.

(** The [while] loop of [solve_quiz_chain]. The result is the number of
    quizzes started when the loop is left, [None] when [fuel] iterations
    were not enough to leave it. *)
Fixpoint chain_loop (fuel : nat) (email secret : string)
         (current_url : string) (quiz_count : nat) : M (option nat) :=
  match fuel with
  | O => ret None
  | S fuel' =>
      go_on <- (if PyStr.truthy current_url
                then expired <- is_timeout ;; ret (negb expired)
                else ret false) ;;
      if go_on then
        let quiz_count := S quiz_count in
        log (LogSolvingQuiz quiz_count current_url) ;;;
        r <- remaining ;;
        log (LogTimeRemaining r) ;;;
        time_remaining <- remaining ;;
        next_url <- solve_single_quiz current_url email secret time_remaining ;;
        match next_url with
        | Some next =>
            if PyStr.truthy next
            then chain_loop fuel' email secret next quiz_count
            else log LogChainCompleted ;;; ret (Some quiz_count)
        | None => log LogChainCompleted ;;; ret (Some quiz_count)
        end
      else ret (Some quiz_count)
  end.

(** The end of [solve_quiz_chain]: the report after the loop, then
    [Timer.__exit__]. *)
Definition chain_end (quiz_count : nat) : M unit :=
  expired <- is_timeout ;;
  (if expired then log LogChainTimedOut
   else log (LogCompletedQuizzes quiz_count)) ;;;
  Timer_exit.

(** [solve_quiz_chain]; [None] only when [fuel] was not enough. *)
Definition solve_quiz_chain (fuel : nat) (initial_url email secret : string)
  : M (option unit) :=
  Timer_init (Settings.timeout_seconds settings) ;;;
  Timer_enter ;;;
  done <- chain_loop fuel email secret initial_url 0 ;;
  match done with
  | None => ret None
  | Some quiz_count => chain_end quiz_count ;;; ret (Some tt)
  end.

End Model.

(** ** [helpers.sanitize_filename] *)

(** [s.replace(x, y)] for one-character [x] and [y]. *)
Fixpoint str_replace_char (x y : ascii) (s : string) : string :=
  match s with
  | EmptyString => EmptyString
  | String c s' =>
      String (if Ascii.eqb c x then y else c) (str_replace_char x y s')
  end.

(** The nine characters of [invalid_chars]: the two angle brackets, the
    colon, the double quote, the slash, the backslash, the bar, the question
    mark and the star. *)
Definition invalid_chars : list ascii :=
  ["<"; ">"; ":"; dquote; "/"; backslash; "|"; "?"; "*"]%char.

(** [sanitize_filename]: the loop replaces one invalid character after the
    other by an underscore. *)
Definition sanitize_filename (filename : string) : string :=
  fold_left (fun name char => str_replace_char char "_" name)
    invalid_chars filename.

(** ** [task_handlers.DataScrapingHandler] *)

Set Warnings "-abstract-large-number".

Section ModelExtra.

Context {F : Type}.
Variable env : @Collaborators F.

(** Whether [BrowserHandler.start] succeeds; when it raises, so does the
  [async with] of the handler. *)
Variable browser_start : Q -> list (@Event F) -> bool.

(** [DataScrapingHandler.handle], on the context [{'url': ...}]. The result
  of [navigate_to] is not looked at, and the model is given the first
  10000 characters of the page. *)
Definition DataScrapingHandler_handle (task_description : string)
         (url : option string) : @M F (option (@Answer F)) :=
match url with
| None => ret None
| Some url =>
    if negb (PyStr.truthy url) then ret None
    else
      fun w =>
        if negb (browser_start (now w) (trace w)) then (None, w)
        else
          bind (call env (EvNavigate url)
                  (fun t past => navigate_to env t past url)) (fun _ =>
          bind (call env EvPageContent (get_page_content env)) (fun content =>
          bind (analyze_text env task_description
                  (Some ("HTML Content:" ++ nl
                         ++ String.substring 0 10000 content))) (fun answer =>
          ret (option_map AStr answer)))) w
end.

End ModelExtra.

(** ** Notions used to state the properties *)

(** Every character of [s] is in the class. *)
Fixpoint all_in (cls : ascii -> bool) (s : string) : bool :=
  match s with
  | EmptyString => true
  | String c s' => cls c && all_in cls s'
  end.

(** What an atom of a pattern may match, said without the matcher. *)
Definition piece_ok (a : Re.atom) (p : string) : Prop :=
  match a with
  | Re.One cls => exists c, p = String c EmptyString /\ cls c = true
  | Re.Opt cls => p = EmptyString \/ exists c, p = String c EmptyString /\ cls c = true
  | Re.Star cls => all_in cls p = true
  | Re.Plus cls => all_in cls p = true /\ p <> EmptyString
  end.

(** The pieces [m] are a match of the pattern [p]. *)
Definition matches (p : Re.pattern) (m : list string) : Prop :=
  Forall2 piece_ok p m.

(** A URL with a [/submit] path component, as the pattern of
    [parse_quiz_task] has it: the scheme, a non-empty run of URL characters,
    [/submit], and a run of URL characters. *)
Definition is_submit_url (u : string) : Prop :=
  exists a b,
    (u = "http://" ++ a ++ "/submit" ++ b \/ u = "https://" ++ a ++ "/submit" ++ b)%string
    /\ a <> EmptyString
    /\ all_in url_char a = true
    /\ all_in url_char b = true.

(** [u] occurs in [s] after the prefix [pre]. *)
Definition occurs_at (pre u s : string) : Prop :=
  exists post, s = (pre ++ u ++ post)%string.

(** [s] does not go on with a character of the class: it is empty, or its
    first character is outside the class. *)
Definition stops (cls : ascii -> bool) (s : string) : Prop :=
  match s with
  | EmptyString => True
  | String c _ => cls c = false
  end.

(** The pieces of [s] between the occurrences of [sep]. *)
Fixpoint split_on (sep : ascii) (s : string) : list string :=
  match s with
  | EmptyString => [EmptyString]
  | String c s' =>
      if Ascii.eqb c sep then EmptyString :: split_on sep s'
      else match split_on sep s' with
           | p :: ps => String c p :: ps
           | [] => [String c EmptyString]
           end
  end.

(** A path component, in the words of the specification: one of the pieces
    between the slashes of the URL, its query string and fragment left
    out. *)
Definition has_path_component (name u : string) : bool :=
  existsb (String.eqb name)
    (split_on "/" (PyStr.before_first "#" (PyStr.before_first "?" u))).

Section Notions.

Context {F : Type}.
Variable env : @Collaborators F.

(** The reading [time.time()] gives in world [w]. *)
Definition reading (w : @World F) : Q := fst (time_time env w).

(** [Timer.elapsed] as a function of the clock reading. *)
Definition elapsed_at (tm : Timer) (current_time : Q) : Q :=
  match start_time tm with
  | None => 0%Q
  | Some s =>
      (match end_time tm with
       | Some e => if float_truthy e then e else current_time
       | None => current_time
       end - s)%Q
  end.


(** The wall clock never goes back. *)
Definition monotone_clock : Prop :=
  forall (t : Q) (past : list (@Event F)), (0 <= delay env t past)%Q.

Definition is_post (e : @Event F) : bool :=
  match e with EvPost _ _ => true | _ => false end.

(** The submissions sent over the network, newest first. *)
Definition posts (tr : list (@Event F)) : list (@Event F) :=
  filter is_post tr.

(** The computation only appends events, and all of them satisfy [P]. *)
Definition adds {A : Type} (P : @Event F -> Prop) (m : @M F A) : Prop :=
  forall w, exists new,
    trace (snd (m w)) = (new ++ trace w)%list /\ Forall P new.

Definition no_post (e : @Event F) : Prop := is_post e = false.

Definition anything (e : @Event F) : Prop := True.


Definition with_timer (tm : Timer) (w : @World F) : @World F :=
  {| now := now w; timer := tm; trace := trace w |}.

(** The computation neither reads nor writes the timer. *)
Definition oblivious {A : Type} (m : @M F A) : Prop :=
  forall w tm, m (with_timer tm w) = (fst (m w), with_timer tm (snd (m w))).

Variable settings : Settings.t.

(** The first lines of the loop body: the two log lines, then the value
    passed as [time_remaining]. *)
Definition announce (quiz_count : nat) (current_url : string) : @M F Q :=
  bind (log (LogSolvingQuiz quiz_count current_url)) (fun _ =>
  bind (remaining env) (fun r =>
  bind (log (LogTimeRemaining r)) (fun _ =>
  remaining env))).

(** The end of the loop body, given what [solve_single_quiz] returned and
    the world it left: go round the loop with the next URL, or break. *)
Definition after_iteration (fuel : nat) (email secret : string)
           (quiz_count : nat) (r : option string * @World F)
  : option nat * @World F :=
  match fst r with
  | Some next =>
      if PyStr.truthy next
      then chain_loop env settings fuel email secret next quiz_count (snd r)
      else (Some quiz_count, record (EvLog LogChainCompleted) (snd r))
  | None => (Some quiz_count, record (EvLog LogChainCompleted) (snd r))
  end.


(** The page at [url] was navigated to. *)
Definition visits (url : string) (tr : list (@Event F)) : bool :=
  existsb (fun e => match e with
                    | EvNavigate u => String.eqb u url
                    | _ => false
                    end) tr.

End Notions.

(** ** Sample collaborators

    Concrete surroundings on which the model is run: a page, its links, the
    replies of the language model, the pages of the PDF and the verdicts of
    the checker. Floats are rationals here, and [float] reads one literal. *)

Definition toy_float (s : string) : option Q :=
  if String.eqb s "3.5" then Some (7 # 2)%Q else None.

Definition sample_env
           (delay : Q -> list (@Event Q) -> Q)
           (content : string) (hrefs : list string)
           (reply : list (string * string) -> option string)
           (pages : option (list (option string)))
           (verdict : @Payload Q -> PostResult) : @Collaborators Q :=
  {| delay := delay;
     navigate_to := fun _ _ _ => true;
     extract_quiz_instructions := fun _ _ => Some content;
     get_page_content := fun _ _ => "<html></html>";
     browser_download := fun _ _ _ _ => true;
     soup_get_text := fun c => c;
     soup_hrefs := fun _ => hrefs;
     chat_completion := fun _ _ messages => reply messages;
     pdf_pages := fun _ _ _ => pages;
     read_csv := fun _ _ data => Some data;
     json_reformat := fun _ => None;
     http_post := fun _ _ _ payload => verdict payload;
     py_float := toy_float;
     json_float := fun _ => "3.5";
     repr_paths := fun _ => "[]" |}.

Definition no_delay : Q -> list (@Event Q) -> Q := fun _ _ => 0%Q.

(** Every navigation takes two seconds. *)
Definition slow_navigation : Q -> list (@Event Q) -> Q :=
  fun _ past =>
    match past with
    | EvNavigate _ :: _ => 2%Q
    | _ => 0%Q
    end.

(** The model restates the question when asked to, and answers "5". *)
Definition reply_five (messages : list (string * string)) : option string :=
  if existsb (fun m => PyStr.contains "Extract the main question" (snd m)) messages
  then Some "What is 2+3?"
  else Some "5".

Definition q1 : string := "https://quiz.example/q1".
Definition q2 : string := "https://quiz.example/q2".
Definition page_sum : string :=
  "What is 2+3? Post your answer to https://quiz.example/submit".

Definition verdict_last : @Payload Q -> PostResult :=
  fun _ => PostStatus 200 (Some (SubmitResponse.mk true None None)).

Definition verdict_next : @Payload Q -> PostResult :=
  fun _ => PostStatus 200 (Some (SubmitResponse.mk true (Some q2) None)).

(** The first quiz is answered well and leads to the second, which is
    answered badly and leads nowhere. *)
Definition verdict_two : @Payload Q -> PostResult :=
  fun p =>
    if String.eqb (p_url p) q1
    then PostStatus 200 (Some (SubmitResponse.mk true (Some q2) None))
    else PostStatus 200 (Some (SubmitResponse.mk false None (Some "too high"))).

Definition env_sum : @Collaborators Q :=
  sample_env no_delay page_sum [] reply_five None verdict_last.

Definition env_two : @Collaborators Q :=
  sample_env no_delay page_sum [] reply_five None verdict_two.

Definition env_slow : @Collaborators Q :=
  sample_env slow_navigation page_sum [] reply_five None verdict_next.

Definition env_no_submit : @Collaborators Q :=
  sample_env no_delay "What is 2+3?" [] reply_five None verdict_last.

Definition env_links : @Collaborators Q :=
  sample_env no_delay page_sum ["report.pdf?download=1"; "about.html"]
    reply_five None verdict_last.

Definition env_notes : @Collaborators Q :=
  sample_env no_delay page_sum ["notes.txt"; "data.csv"]
    reply_five None verdict_last.

Definition env_pdf : @Collaborators Q :=
  sample_env no_delay
    "Summarise page 0 of the report. Post to https://quiz.example/submit"
    ["report.pdf"] reply_five
    (Some [Some "first page"; Some "second page"]) verdict_last.

Definition one_second : Settings.t :=
  {| Settings.timeout_seconds := 1; Settings.max_payload_size := 1048576 |}.

Definition tiny_ceiling : Settings.t :=
  {| Settings.timeout_seconds := 180; Settings.max_payload_size := 10 |}.

(** The world before the chain, and the world at the first loop head of a
    chain with the given budget. *)
Definition w0 : @World Q := mkWorld 0%Q (mkTimer 0 None None) [].

Definition at_loop_head (timeout : Z) : @World Q :=
  mkWorld 0%Q (mkTimer timeout (Some 0%Q) None) [].


(** The same timer, five seconds after the first loop head. *)
Definition five_seconds_later : @World Q :=
  mkWorld 5%Q (mkTimer 180 (Some 0%Q) None) [].

Definition me : string := "me@example.com".
Definition s3cret : string := "s3cret".
Definition submit_here : string := "https://quiz.example/submit".
Definition report_path : string := "downloads/report.pdf".

Definition quiz_data_of (env : @Collaborators Q) : QuizData :=
  mkQuizData (match extract_quiz_instructions env 0%Q [] with
              | Some c => c
              | None => ""
              end) "<html></html>" q1.

(** ** Further notions *)

(** The character is one of [invalid_chars]. *)
Definition is_invalid_char (c : ascii) : bool :=
  existsb (Ascii.eqb c) invalid_chars.

(** What [sanitize_filename] makes of one character. *)
Definition clean_char (c : ascii) : ascii :=
  if is_invalid_char c then "_"%char else c.

Fixpoint string_map (f : ascii -> ascii) (s : string) : string :=
  match s with
  | EmptyString => EmptyString
  | String c s' => String (f c) (string_map f s')
  end.

(** Where [download_file] saves the file of a URL. *)
Definition file_path_of (url : string) : string :=
  download_path (PyStr.before_first "?" (PyStr.after_last "/" url)).

(** The indices [start], [start + 1], ... of [n] consecutive pages. *)
Fixpoint page_indices (start : Z) (n : nat) : list Z :=
  match n with
  | O => []
  | S n' => start :: page_indices (start + 1)%Z n'
  end.

(** The two messages [analyze_text] sends when it is given a context that
    is not empty. *)
Definition asked_with_context (context prompt : string)
  : list (string * string) :=
  [("system", system_prompt);
   ("user", "Context:" ++ nl ++ context ++ nl ++ nl ++ "Task:" ++ nl ++ prompt)].


Section Accounting.

Context {F : Type}.
Variable env : @Collaborators F.

(** How often events of one kind occur among [l]. *)
Definition weight (f : @Event F -> nat) (l : list (@Event F)) : nat :=
list_sum (map f l).

Definition chat_w (e : @Event F) : nat :=
match e with EvChat _ => 1 | _ => 0 end.

Definition post_w (e : @Event F) : nat :=
match e with EvPost _ _ => 1 | _ => 0 end.

Definition solving_w (e : @Event F) : nat :=
match e with EvLog (LogSolvingQuiz _ _) => 1 | _ => 0 end.

(** The computation only appends events, at most [k] of them of the kind
  counted by [f]. *)
Definition within {A : Type} (f : @Event F -> nat) (k : nat) (m : @M F A)
: Prop :=
forall w, exists new,
  trace (snd (m w)) = (new ++ trace w)%list /\ weight f new <= k.

(** A navigation that succeeds takes two seconds or more, the
  [asyncio.sleep(2)] of [BrowserHandler.navigate_to]. *)
Definition navigation_sleeps : Prop :=
forall t past url,
  navigate_to env t past url = true ->
  (2 <= delay env t (EvNavigate url :: past))%Q.

(** If the event is a submission, it carries these credentials. *)
Definition carries (email secret : string) (e : @Event F) : Prop :=
forall su p, e = EvPost su p -> p_email p = email /\ p_secret p = secret.

Definition download_event (url : string) : @Event F :=
EvDownload url (file_path_of url).

(** Kinds of events. *)
Definition is_browser (e : @Event F) : bool :=
match e with
| EvNavigate _ | EvExtractInstructions | EvPageContent => true
| _ => false
end.

Definition is_chat (e : @Event F) : bool :=
match e with EvChat _ => true | _ => false end.

Definition is_download (e : @Event F) : bool :=
match e with EvDownload _ _ => true | _ => false end.

Definition is_page_access (e : @Event F) : bool :=
match e with EvPdfPage _ _ => true | _ => false end.

Definition is_log (e : @Event F) : bool :=
match e with EvLog _ => true | _ => false end.

(** What [solve_task] and its handlers may do. *)
Definition is_solver_event (e : @Event F) : bool :=
match e with
| EvDownload _ _ | EvPdfOpen _ | EvPdfPage _ _ | EvReadCsv _ | EvChat _ => true
| _ => false
end.

(** [w'] is [w] with more events, all of them satisfying [P]. *)
Definition grows_by (P : @Event F -> Prop) (w w' : @World F) : Prop :=
exists new, trace w' = (new ++ trace w)%list /\ Forall P new.

(** The computation takes every world to one related to it by [R]. *)
Definition respects {A : Type} (R : @World F -> @World F -> Prop)
         (m : @M F A) : Prop :=
forall w, R w (snd (m w)).

(** Recording an event of the kind [cls], with or without the time it
  takes, is a step of [R]. *)
Definition steps (R : @World F -> @World F -> Prop)
         (cls : @Event F -> bool) : Prop :=
forall e w, cls e = true -> R w (pass env (record e w)) /\ R w (record e w).

(** The clock reading of [w'] is not before that of [w]. *)
Definition not_before (w w' : @World F) : Prop := (now w <= now w')%Q.

End Accounting.

(** ** More sample collaborators *)

(** The model replies with a single space. *)
Definition env_blank : @Collaborators Q :=
  sample_env no_delay page_sum [] (fun _ => Some " ") None verdict_last.

(** A report whose second page cannot be read. *)
Definition env_torn_pdf : @Collaborators Q :=
  sample_env no_delay page_sum ["report.pdf"] reply_five
    (Some [Some "first page"; None; Some "third page"]) verdict_last.

(** A browser that always starts. *)
Definition always_starts : Q -> list (@Event Q) -> bool := fun _ _ => true.

Definition report_url : string := "https://files.example/a/report.pdf?token=1".

(** The same collaborators with another outcome of the downloads. *)
Definition with_download (env : @Collaborators Q)
           (outcome : string -> string -> bool) : @Collaborators Q :=
  {| delay := delay env;
     navigate_to := navigate_to env;
     extract_quiz_instructions := extract_quiz_instructions env;
     get_page_content := get_page_content env;
     browser_download := fun _ _ url path => outcome url path;
     soup_get_text := soup_get_text env;
     soup_hrefs := soup_hrefs env;
     chat_completion := chat_completion env;
     pdf_pages := pdf_pages env;
     read_csv := read_csv env;
     json_reformat := json_reformat env;
     http_post := http_post env;
     py_float := py_float env;
     json_float := json_float env;
     repr_paths := repr_paths env |}.

(** A download succeeds unless the URL says the file is missing. *)
Definition unless_missing (url path : string) : bool :=
  negb (PyStr.contains "missing" url).

Definition env_missing_file : @Collaborators Q :=
  with_download env_links unless_missing.


(** A page whose submit URL carries a token and is followed by a bracket,
    and a page whose only URL has [/submitted] for a path. *)
Definition page_token : string :=
  "What is 2+3? Post to https://quiz.example/submit?token=abc> or http://b.example/submit".

Definition submit_token : string := "https://quiz.example/submit?token=abc".

Definition env_token : @Collaborators Q :=
  sample_env no_delay page_token [] reply_five None verdict_last.

Definition page_submitted : string :=
  "What is 2+3? Answers so far: https://quiz.example/submitted".

Definition submitted_url : string := "https://quiz.example/submitted".

Definition env_submitted : @Collaborators Q :=
  sample_env no_delay page_submitted [] reply_five None verdict_last.



(** A page number of 4301 digits. *)
Fixpoint repeat_char (c : ascii) (n : nat) : string :=
  match n with
  | O => EmptyString
  | S n' => String c (repeat_char c n')
  end.

Definition huge_page_reference : string := "see page " ++ repeat_char "9" 4301.

(** * Properties *)

(** ** Strings *)

Lemma append_nil_r (s : string) : (s ++ "")%string = s.
Proof. induction s as [|c s IH]; simpl; [reflexivity | now rewrite IH]. Qed.

Lemma append_assoc (a b c : string) :
  ((a ++ b) ++ c)%string = (a ++ (b ++ c))%string.
Proof. induction a as [|x a IH]; simpl; [reflexivity | now rewrite IH]. Qed.

Lemma length_append (a b : string) :
  String.length (a ++ b) = String.length a + String.length b.
Proof. induction a as [|x a IH]; simpl; [reflexivity | now rewrite IH]. Qed.

(** ** The effect monad: what a computation may add to the trace, and
    whether it touches the timer *)

Section MonadFacts.

Context {F : Type}.
Variable env : @Collaborators F.
Variable settings : Settings.t.

Lemma adds_weaken {A} (P Q : @Event F -> Prop) (m : @M F A) :
  (forall e, P e -> Q e) -> adds P m -> adds Q m.
Proof.
  intros HPQ Hm w. destruct (Hm w) as (new & E & HF).
  exists new. split; [exact E|]. eapply Forall_impl; eauto.
Qed.

Lemma adds_ret {A} (P : @Event F -> Prop) (a : A) : adds P (ret a).
Proof. intros w. exists []. simpl. auto. Qed.

Lemma adds_bind {A B} (P : @Event F -> Prop) (m : @M F A) (f : A -> @M F B) :
  adds P m -> (forall a, adds P (f a)) -> adds P (bind m f).
Proof.
  intros Hm Hf w. unfold bind.
  destruct (Hm w) as (n1 & E1 & F1). destruct (m w) as [a w1]. simpl in *.
  destruct (Hf a w1) as (n2 & E2 & F2).
  exists (n2 ++ n1)%list. rewrite E2, E1, app_assoc. split; [reflexivity|].
  apply Forall_app. auto.
Qed.

Lemma adds_call {A} (P : @Event F -> Prop) e (o : Q -> list Event -> A) :
  P e -> adds P (call env e o).
Proof. intros He w. exists [e]. simpl. auto. Qed.

Lemma adds_emit (P : @Event F -> Prop) e : P e -> adds P (emit e).
Proof. intros He w. exists [e]. simpl. auto. Qed.

Lemma adds_log (m : @LogMsg F) : adds no_post (log m).
Proof. apply adds_emit. reflexivity. Qed.

Lemma adds_time (P : @Event F -> Prop) : adds P (time_time env).
Proof. intros w. exists []. simpl. auto. Qed.

Lemma adds_posts {A} (m : @M F A) (w : @World F) :
  adds no_post m -> posts (trace (snd (m w))) = posts (trace w).
Proof.
  intros Hm. destruct (Hm w) as (new & E & HF). rewrite E. clear E.
  unfold posts. rewrite filter_app.
  replace (filter is_post new) with (@nil (@Event F)); [reflexivity|].
  symmetry. induction HF as [|e l He _ IH]; simpl; [reflexivity|].
  rewrite He. exact IH.
Qed.

Lemma oblivious_ret {A} (a : A) : oblivious (@ret F A a).
Proof. intros w tm. reflexivity. Qed.

Lemma oblivious_bind {A B} (m : @M F A) (f : A -> @M F B) :
  oblivious m -> (forall a, oblivious (f a)) -> oblivious (bind m f).
Proof.
  intros Hm Hf w tm. unfold bind. rewrite Hm.
  destruct (m w) as [a w1]. simpl. apply Hf.
Qed.

Lemma oblivious_call {A} e (o : Q -> list Event -> A) : oblivious (call env e o).
Proof. intros w tm. reflexivity. Qed.

Lemma oblivious_emit e : oblivious (@emit F e).
Proof. intros w tm. reflexivity. Qed.

Lemma oblivious_log m : oblivious (@log F m).
Proof. apply oblivious_emit. Qed.

Lemma oblivious_timer {A} (m : @M F A) (w : @World F) :
  oblivious m -> timer (snd (m w)) = timer w.
Proof.
  intros Hm. specialize (Hm w (timer w)).
  assert (E : with_timer (timer w) w = w) by (destruct w; reflexivity).
  rewrite E in Hm. destruct (m w) as [a w']. simpl in *.
  injection Hm as Hw. rewrite Hw at 1. reflexivity.
Qed.

(** One step of a proof that a computation built from [bind], [ret],
    [call], [emit] and case analysis keeps a property of this kind. *)
Ltac quiet_step :=
  match goal with
  | |- adds _ (bind _ _) => apply adds_bind; [|intros]
  | |- adds _ (ret _) => apply adds_ret
  | |- adds _ (call _ _ _) => apply adds_call; reflexivity
  | |- adds _ (emit _) => apply adds_emit; reflexivity
  | |- adds _ (log _) => apply adds_log
  | |- oblivious (bind _ _) => apply oblivious_bind; [|intros]
  | |- oblivious (ret _) => apply oblivious_ret
  | |- oblivious (call _ _ _) => apply oblivious_call
  | |- oblivious (emit _) => apply oblivious_emit
  | |- oblivious (log _) => apply oblivious_log
  | |- adds _ (match ?x with _ => _ end) => destruct x
  | |- oblivious (match ?x with _ => _ end) => destruct x
  | |- adds _ (if ?b then _ else _) => destruct b
  | |- oblivious (if ?b then _ else _) => destruct b
  end.

Ltac quiet := repeat quiet_step; auto.

Lemma analyze_text_quiet prompt context :
  adds no_post (analyze_text env prompt context)
  /\ oblivious (analyze_text env prompt context).
Proof. split; unfold analyze_text; quiet. Qed.

Lemma fetch_quiz_page_quiet url :
  adds no_post (fetch_quiz_page env url) /\ oblivious (fetch_quiz_page env url).
Proof. split; unfold fetch_quiz_page; quiet. Qed.

Lemma parse_quiz_task_quiet qd :
  adds no_post (parse_quiz_task env qd) /\ oblivious (parse_quiz_task env qd).
Proof.
  split; unfold parse_quiz_task; cbv zeta; quiet; apply analyze_text_quiet.
Qed.

Lemma download_all_quiet urls :
  adds no_post (download_all env urls) /\ oblivious (download_all env urls).
Proof.
  induction urls as [|u urls [IH1 IH2]]; simpl; split; quiet;
    unfold download_file; cbv zeta; quiet.
Qed.

Lemma extract_all_quiet path i pages :
  adds no_post (@extract_all F path i pages)
  /\ oblivious (@extract_all F path i pages).
Proof.
  revert i. induction pages as [|p pages IH]; intros i; simpl; split; quiet;
    apply IH.
Qed.

Lemma pdf_text_quiet path pages n :
  adds no_post (@pdf_text F path pages n) /\ oblivious (@pdf_text F path pages n).
Proof.
  split; unfold pdf_text; cbv zeta; quiet; apply extract_all_quiet.
Qed.

Lemma solve_math_problem_quiet problem data :
  adds no_post (solve_math_problem env problem data)
  /\ oblivious (solve_math_problem env problem data).
Proof.
  split; unfold solve_math_problem; cbv zeta; quiet; apply analyze_text_quiet.
Qed.

Lemma solve_task_quiet ti :
  adds no_post (solve_task env ti) /\ oblivious (solve_task env ti).
Proof.
  split; unfold solve_task, PDFProcessingHandler_handle,
    DataAnalysisHandler_handle, GeneralTaskHandler_handle; cbv zeta; quiet;
    first [ apply download_all_quiet | apply pdf_text_quiet
          | apply analyze_text_quiet | apply solve_math_problem_quiet ].
Qed.

Lemma submit_answer_oblivious su email secret url a :
  oblivious (submit_answer env settings su email secret url a).
Proof. unfold submit_answer; cbv zeta; quiet. Qed.

Lemma solve_single_quiz_oblivious url email secret tr :
  oblivious (solve_single_quiz env settings url email secret tr).
Proof.
  unfold solve_single_quiz; quiet;
    first [ apply fetch_quiz_page_quiet | apply parse_quiz_task_quiet
          | apply solve_task_quiet | apply submit_answer_oblivious ].
Qed.

End MonadFacts.

(** ** The timer *)

Section TimerFacts.
Context {F : Type}.
Variable env : @Collaborators F.


Lemma elapsed_reading (w : @World F) :
  fst (elapsed env w) = elapsed_at (timer w) (reading env w)
  /\ timer (snd (elapsed env w)) = timer w
  /\ trace (snd (elapsed env w)) = trace w.
Proof.
  unfold elapsed, elapsed_at, reading.
  destruct (start_time (timer w)) as [s|]; [|simpl; auto].
  destruct (end_time (timer w)) as [e|]; [destruct (float_truthy e)|]; simpl; auto.
Qed.


Lemma remaining_value (w : @World F) :
  fst (remaining env w)
  = py_max 0 (float_of_int (timeout_seconds (timer w))
              - elapsed_at (timer w) (reading env w))%Q
  /\ timer (snd (remaining env w)) = timer w
  /\ trace (snd (remaining env w)) = trace w.
Proof.
  destruct (elapsed_reading w) as (He & Ht & Htr).
  unfold remaining, bind. destruct (elapsed env w) as [e w']. simpl in *.
  subst e. rewrite Ht. auto.
Qed.

Lemma is_timeout_value (w : @World F) :
  fst (is_timeout env w)
  = Qle_bool (inject_Z (timeout_seconds (timer w))) (elapsed_at (timer w) (reading env w))
  /\ timer (snd (is_timeout env w)) = timer w
  /\ trace (snd (is_timeout env w)) = trace w.
Proof.
  destruct (elapsed_reading w) as (He & Ht & Htr).
  unfold is_timeout, bind. destruct (elapsed env w) as [e w']. simpl in *.
  subst e. rewrite Ht. auto.
Qed.





End TimerFacts.

(** ** The orchestrator *)

Section ChainFacts.

Context {F : Type}.
Variable env : @Collaborators F.
Variable settings : Settings.t.

Ltac grow_step :=
  match goal with
  | |- adds _ (bind _ _) => apply adds_bind; [|intros]
  | |- adds _ (ret _) => apply adds_ret
  | |- adds _ (call _ _ _) => apply adds_call; exact I
  | |- adds _ (emit _) => apply adds_emit; exact I
  | |- adds _ (log _) => apply adds_emit; exact I
  | |- adds _ (match ?x with _ => _ end) => destruct x
  | |- adds _ (if ?b then _ else _) => destruct b
  end.

Lemma quiet_grows {A} (m : @M F A) : adds no_post m -> adds anything m.
Proof. apply adds_weaken. intros; exact I. Qed.

Lemma elapsed_adds (P : @Event F -> Prop) : adds P (elapsed env).
Proof.
  intros w. exists []. split; [|constructor].
  destruct (elapsed_reading env w) as (_ & _ & E). exact E.
Qed.

Lemma is_timeout_adds (P : @Event F -> Prop) : adds P (is_timeout env).
Proof.
  intros w. exists []. split; [|constructor].
  destruct (is_timeout_value env w) as (_ & _ & E). exact E.
Qed.

Lemma remaining_adds (P : @Event F -> Prop) : adds P (remaining env).
Proof.
  intros w. exists []. split; [|constructor].
  destruct (remaining_value env w) as (_ & _ & E). exact E.
Qed.

Lemma submit_answer_grows su email secret url a :
  adds anything (submit_answer env settings su email secret url a).
Proof. unfold submit_answer; cbv zeta; repeat grow_step. Qed.

Lemma solve_single_quiz_grows url email secret tr :
  adds anything (solve_single_quiz env settings url email secret tr).
Proof.
  unfold solve_single_quiz; repeat grow_step;
    first [ apply quiet_grows; first [ apply fetch_quiz_page_quiet
                                     | apply parse_quiz_task_quiet
                                     | apply solve_task_quiet ]
          | apply submit_answer_grows ].
Qed.

Lemma chain_loop_grows fuel email secret url count :
  adds anything (chain_loop env settings fuel email secret url count).
Proof.
  revert url count. induction fuel as [|fuel IH]; intros url count; simpl.
  - apply adds_ret.
  - repeat grow_step; auto;
      first [ apply is_timeout_adds | apply remaining_adds
            | apply solve_single_quiz_grows ].
Qed.

(** The unfolding of one turn of the loop. *)
Lemma chain_loop_turn fuel email secret url count (w : @World F) :
  PyStr.truthy url = true ->
  chain_loop env settings (S fuel) email secret url count w
  = (if fst (is_timeout env w)
     then (Some count, snd (is_timeout env w))
     else
       let s := announce env (S count) url (snd (is_timeout env w)) in
       after_iteration env settings fuel email secret (S count)
         (solve_single_quiz env settings url email secret (fst s) (snd s))).
Proof.
  intros Hu. simpl. rewrite Hu. unfold bind at 1. unfold bind at 1.
  destruct (is_timeout env w) as [expired w0]. simpl.
  destruct expired; simpl; [reflexivity|].
  unfold announce, after_iteration, bind, log, emit, ret. simpl.
  destruct (remaining env _) as [r wa]. simpl.
  destruct (remaining env _) as [tr wb]. simpl.
  destruct (solve_single_quiz env settings url email secret tr wb) as [[next|] wc];
    simpl; [destruct (PyStr.truthy next)|]; reflexivity.
Qed.

Lemma announce_trace count url (w : @World F) :
  exists r,
    trace (snd (announce env count url w))
    = EvLog (LogTimeRemaining r) :: EvLog (LogSolvingQuiz count url) :: trace w.
Proof.
  unfold announce, bind, log, emit. simpl.
  pose proof (remaining_value env (record (EvLog (LogSolvingQuiz count url)) w))
    as (_ & _ & E1).
  destruct (remaining env (record (EvLog (LogSolvingQuiz count url)) w)) as [r wa].
  simpl in *. exists r.
  pose proof (remaining_value env (record (EvLog (LogTimeRemaining r)) wa))
    as (_ & _ & E2).
  destruct (remaining env (record (EvLog (LogTimeRemaining r)) wa)) as [tr wb].
  simpl in *. rewrite E2, E1. reflexivity.
Qed.

Lemma announce_timer count url (w : @World F) :
  timer (snd (announce env count url w)) = timer w.
Proof.
  unfold announce, bind, log, emit. simpl.
  pose proof (remaining_value env (record (EvLog (LogSolvingQuiz count url)) w))
    as (_ & E1 & _).
  destruct (remaining env (record (EvLog (LogSolvingQuiz count url)) w)) as [r wa].
  simpl in *.
  pose proof (remaining_value env (record (EvLog (LogTimeRemaining r)) wa))
    as (_ & E2 & _).
  destruct (remaining env (record (EvLog (LogTimeRemaining r)) wa)) as [tr wb].
  simpl in *. rewrite E2, E1. reflexivity.
Qed.

(** [solve_single_quiz] begins by navigating to the quiz URL. *)
Lemma solve_single_quiz_begins url email secret tr (w : @World F) :
  exists rest,
    trace (snd (solve_single_quiz env settings url email secret tr w))
    = (rest ++ EvNavigate url :: trace w)%list.
Proof.
  pose (w0 := pass env (record (EvNavigate url) w)).
  assert (H : exists k : bool -> @M F (option string),
             (forall b, adds anything (k b))
             /\ solve_single_quiz env settings url email secret tr w
                = k (navigate_to env (now w) (trace w) url) w0).
  { eexists (fun success : bool => bind
      (if negb success then ret None
       else bind (call env EvExtractInstructions (extract_quiz_instructions env)) _) _).
    split; [|reflexivity].
    intros b. repeat grow_step;
      first [ apply quiet_grows; first [ apply parse_quiz_task_quiet
                                       | apply solve_task_quiet ]
            | apply submit_answer_grows ]. }
  destruct H as (k & Hk & E). rewrite E.
  destruct (Hk (navigate_to env (now w) (trace w) url) w0) as (new & En & _).
  exists new. rewrite En. reflexivity.
Qed.

(** What [solve_single_quiz] returns once a submission has completed. *)
Lemma solve_single_quiz_verdict url email secret tr
      (w w1 w2 w3 w4 : @World F) qd ti a su v :
  fetch_quiz_page env url w = (Some qd, w1) ->
  parse_quiz_task env qd w1 = (Some ti, w2) ->
  solve_task env ti
    (record (EvLog (LogTask (String.substring 0 100 (task_description ti)))) w2)
  = (Some a, w3) ->
  submit_url ti = Some su ->
  PyStr.truthy su = true ->
  submit_answer env settings su email secret url a
    (record (EvLog (LogAnswer a)) w3) = (Some v, w4) ->
  solve_single_quiz env settings url email secret tr w
  = (SubmitResponse.url v,
     record (EvLog (if SubmitResponse.correct v then LogCorrect
                    else LogIncorrect (SubmitResponse.reason v))) w4).
Proof.
  intros Hf Hp Hs Hu Ht Hsub.
  unfold solve_single_quiz, bind. rewrite Hf, Hp.
  unfold log at 1, emit at 1. rewrite Hs.
  unfold log at 1, emit at 1. rewrite Hu, Ht. simpl. rewrite Hsub.
  destruct (SubmitResponse.correct v); reflexivity.
Qed.




Lemma chain_end_trace n (w : @World F) :
  trace (snd (chain_end env n w))
  = EvLog (if fst (is_timeout env w) then LogChainTimedOut
           else LogCompletedQuizzes n) :: trace w.
Proof.
  pose proof (is_timeout_value env w) as (_ & _ & Htr).
  unfold chain_end, bind. destruct (is_timeout env w) as [b w1]. simpl in *.
  destruct b; simpl; now rewrite Htr.
Qed.


End ChainFacts.

Section ChainClaims.

Context {F : Type}.
Variable env : @Collaborators F.
Variable settings : Settings.t.

(** The end of an iteration, by what [solve_single_quiz] returned. *)
Lemma loop_continues_on_next_url
        fuel email secret url count (w : @World F) :
  PyStr.truthy url = true ->
  fst (is_timeout env w) = false ->
  let s := announce env (S count) url (snd (is_timeout env w)) in
  let r := solve_single_quiz env settings url email secret (fst s) (snd s) in
  match fst r with
  | Some next =>
      if PyStr.truthy next then
        chain_loop env settings (S (S fuel)) email secret url count w
        = chain_loop env settings (S fuel) email secret next (S count) (snd r)
        /\ (if fst (is_timeout env (snd r))
            then chain_loop env settings (S fuel) email secret next (S count) (snd r)
                 = (Some (S count), snd (is_timeout env (snd r)))
            else exists rest,
                trace (snd (chain_loop env settings (S fuel) email secret
                              next (S count) (snd r)))
                = (rest ++ EvNavigate next
                     :: trace (snd (announce env (S (S count)) next
                                      (snd (is_timeout env (snd r))))))%list)
      else
        chain_loop env settings (S (S fuel)) email secret url count w
        = (Some (S count), record (EvLog LogChainCompleted) (snd r))
  | None =>
      chain_loop env settings (S (S fuel)) email secret url count w
      = (Some (S count), record (EvLog LogChainCompleted) (snd r))
  end.
Proof.
  intros Hu Hexp s r.
  pose proof (chain_loop_turn env settings (S fuel) email secret url count w Hu) as E.
  rewrite Hexp in E. cbv zeta in E. fold s in E. fold r in E.
  unfold after_iteration in E.
  destruct (fst r) as [next|]; [|exact E].
  destruct (PyStr.truthy next) eqn:Hn; [|exact E].
  split; [exact E|].
  pose proof (chain_loop_turn env settings fuel email secret next (S count) (snd r) Hn) as E2.
  destruct (fst (is_timeout env (snd r))); [exact E2|].
  cbv zeta in E2. rewrite E2. unfold after_iteration.
  set (s2 := announce env (S (S count)) next (snd (is_timeout env (snd r)))).
  destruct (solve_single_quiz_begins env settings next email secret (fst s2) (snd s2))
    as (rest & Eb).
  set (r2 := solve_single_quiz env settings next email secret (fst s2) (snd s2)) in *.
  assert (G : forall x : option nat * @World F,
             (exists new, trace (snd x) = (new ++ trace (snd r2))%list) ->
             exists rest', trace (snd x) = (rest' ++ EvNavigate next :: trace (snd s2))%list).
  { intros x (new & En). exists (new ++ rest)%list.
    rewrite En, Eb, app_assoc. reflexivity. }
  destruct (fst r2) as [n2|].
  - destruct (PyStr.truthy n2).
    + apply G.
      destruct (chain_loop_grows env settings fuel email secret n2 (S (S count)) (snd r2))
        as (new & En & _).
      exists new. exact En.
    + apply G. exists [EvLog LogChainCompleted]. reflexivity.
  - apply G. exists [EvLog LogChainCompleted]. reflexivity.
Qed.

(** C1, as amended. Take an iteration that starts (non-empty URL, timer
    not expired at the loop head) and whose submission completes with a
    verdict [v]. What [solve_single_quiz] returns is the [url] of [v],
    whatever [correct] says. The loop goes round exactly when that [url]
    is present and non-empty: the cursor becomes that URL, and at the next
    loop head the fetch stage starts with it unless the timer has expired
    there, in which case the loop is left without fetching. When [url] is
    absent or empty the loop breaks with the line "Quiz chain completed or
    no more URLs". *)
Theorem verdict_url_decides_continuation
        fuel email secret url count (w w1 w2 w3 w4 : @World F) qd ti a su v :
  PyStr.truthy url = true ->
  fst (is_timeout env w) = false ->
  fetch_quiz_page env url
    (snd (announce env (S count) url (snd (is_timeout env w)))) = (Some qd, w1) ->
  parse_quiz_task env qd w1 = (Some ti, w2) ->
  solve_task env ti
    (record (EvLog (LogTask (String.substring 0 100 (task_description ti)))) w2)
  = (Some a, w3) ->
  submit_url ti = Some su ->
  PyStr.truthy su = true ->
  submit_answer env settings su email secret url a
    (record (EvLog (LogAnswer a)) w3) = (Some v, w4) ->
  let s := announce env (S count) url (snd (is_timeout env w)) in
  let r := solve_single_quiz env settings url email secret (fst s) (snd s) in
  r = (SubmitResponse.url v,
       record (EvLog (if SubmitResponse.correct v then LogCorrect
                      else LogIncorrect (SubmitResponse.reason v))) w4)
  /\ match SubmitResponse.url v with
     | Some next =>
         if PyStr.truthy next then
           chain_loop env settings (S (S fuel)) email secret url count w
           = chain_loop env settings (S fuel) email secret next (S count) (snd r)
           /\ (if fst (is_timeout env (snd r))
               then chain_loop env settings (S fuel) email secret next (S count) (snd r)
                    = (Some (S count), snd (is_timeout env (snd r)))
               else exists rest,
                   trace (snd (chain_loop env settings (S fuel) email secret
                                 next (S count) (snd r)))
                   = (rest ++ EvNavigate next
                        :: trace (snd (announce env (S (S count)) next
                                         (snd (is_timeout env (snd r))))))%list)
         else
           chain_loop env settings (S (S fuel)) email secret url count w
           = (Some (S count), record (EvLog LogChainCompleted) (snd r))
     | None =>
         chain_loop env settings (S (S fuel)) email secret url count w
         = (Some (S count), record (EvLog LogChainCompleted) (snd r))
     end.
Proof.
  intros Hu Hexp Hf Hp Hs Hsu Ht Hsub s r.
  assert (Er : r = (SubmitResponse.url v,
                    record (EvLog (if SubmitResponse.correct v then LogCorrect
                                   else LogIncorrect (SubmitResponse.reason v))) w4)).
  { unfold r. eapply solve_single_quiz_verdict; eassumption. }
  split; [exact Er|].
  pose proof (loop_continues_on_next_url fuel email secret url count w Hu Hexp) as H.
  cbv zeta in H. fold s in H. fold r in H.
  replace (SubmitResponse.url v) with (fst r) by (rewrite Er; reflexivity).
  exact H.
Qed.


End ChainClaims.

(** ** The matcher against the meaning of patterns *)

Lemma group0_cons (x : string) (m : list string) :
  Re.group0 (x :: m) = (x ++ Re.group0 m)%string.
Proof.
  unfold Re.group0. destruct m as [|y m]; simpl.
  - now rewrite append_nil_r.
  - reflexivity.
Qed.

Lemma group0_push (c : ascii) (x : string) (m : list string) :
  Re.group0 (Re.push c (x :: m)) = String c (Re.group0 (x :: m)).
Proof. simpl. now rewrite !group0_cons. Qed.

(** A greedy run returns the run, then what the continuation returns. *)
Lemma greedy_sound cls k s m :
  Re.greedy cls k s = Some m ->
  exists piece m' s',
    m = piece :: m' /\ all_in cls piece = true
    /\ s = (piece ++ s')%string /\ k s' = Some m'.
Proof.
  revert m. induction s as [|c s IH]; intros m H; simpl in H.
  - destruct (k EmptyString) as [m'|] eqn:Ek; [|discriminate].
    injection H as <-. exists EmptyString, m', EmptyString. auto.
  - assert (Hskip : option_map (cons EmptyString) (k (String c s)) = Some m ->
                    exists piece m' s',
                      m = piece :: m' /\ all_in cls piece = true
                      /\ String c s = (piece ++ s')%string /\ k s' = Some m').
    { intros H'. destruct (k (String c s)) as [m'|] eqn:Ek; [|discriminate].
      injection H' as <-. exists EmptyString, m', (String c s). auto. }
    destruct (cls c) eqn:Hc; [|auto].
    destruct (Re.greedy cls k s) as [m0|] eqn:Eg; [|auto].
    injection H as <-.
    destruct (IH m0 eq_refl) as (piece & m' & s' & -> & Hall & -> & Hk).
    exists (String c piece), m', s'. simpl. rewrite Hc, Hall. auto.
Qed.

Lemma greedy_fallback cls k s :
  k s <> None -> Re.greedy cls k s <> None.
Proof.
  intros Hk. destruct (k s) as [m|] eqn:Ek; [|congruence].
  destruct s as [|c s]; simpl; rewrite ?Ek; simpl; try discriminate.
  destruct (cls c); [destruct (Re.greedy cls k s)|]; rewrite ?Ek; discriminate.
Qed.

Lemma greedy_complete cls k piece s' :
  all_in cls piece = true -> k s' <> None ->
  Re.greedy cls k (piece ++ s') <> None.
Proof.
  intros Hall Hk. induction piece as [|c piece IH]; simpl.
  - apply greedy_fallback, Hk.
  - simpl in Hall. apply andb_true_iff in Hall as [Hc Hall]. rewrite Hc.
    specialize (IH Hall).
    destruct (Re.greedy cls k (piece ++ s')); [discriminate | congruence].
Qed.

(** What the matcher returns is a match, and a prefix of the text. *)
Lemma match_here_sound p : forall s m,
  Re.match_here p s = Some m ->
  matches p m /\ exists rest, s = (Re.group0 m ++ rest)%string.
Proof.
  induction p as [|a p IH]; intros s m H.
  - injection H as <-. split; [constructor|]. exists s. reflexivity.
  - destruct a as [cls|cls|cls|cls]; simpl in H.
    + destruct s as [|c s]; [discriminate|].
      destruct (cls c) eqn:Hc; [|discriminate].
      destruct (Re.match_here p s) as [m'|] eqn:E; [|discriminate].
      injection H as <-. destruct (IH s m' E) as (Hm & rest & ->).
      split; [constructor; [exists c; auto | exact Hm]|].
      exists rest. now rewrite group0_cons.
    + assert (Hskip : option_map (cons EmptyString) (Re.match_here p s) = Some m ->
                      matches (Re.Opt cls :: p) m
                      /\ exists rest, s = (Re.group0 m ++ rest)%string).
      { intros H'. destruct (Re.match_here p s) as [m'|] eqn:E; [|discriminate].
        injection H' as <-. destruct (IH s m' E) as (Hm & rest & ->).
        split; [constructor; [left; reflexivity | exact Hm]|].
        exists rest. now rewrite group0_cons. }
      destruct s as [|c s]; [auto|].
      destruct (cls c) eqn:Hc; [|auto].
      destruct (Re.match_here p s) as [m'|] eqn:E; [|auto].
      injection H as <-. destruct (IH s m' E) as (Hm & rest & ->).
      split; [constructor; [right; exists c; auto | exact Hm]|].
      exists rest. now rewrite group0_cons.
    + destruct (greedy_sound _ _ _ _ H) as (piece & m' & s' & -> & Hall & -> & Hk).
      destruct (IH s' m' Hk) as (Hm & rest & ->).
      split; [constructor; [exact Hall | exact Hm]|].
      exists rest. now rewrite group0_cons, append_assoc.
    + destruct s as [|c s]; [discriminate|].
      destruct (cls c) eqn:Hc; [|discriminate].
      destruct (Re.greedy cls (Re.match_here p) s) as [m0|] eqn:E; [|discriminate].
      injection H as <-.
      destruct (greedy_sound _ _ _ _ E) as (piece & m' & s' & -> & Hall & -> & Hk).
      destruct (IH s' m' Hk) as (Hm & rest & ->).
      split.
      * constructor; [|exact Hm]. simpl. rewrite Hc, Hall. split; [reflexivity | discriminate].
      * exists rest. rewrite group0_push, group0_cons. simpl.
        now rewrite append_assoc.
Qed.

(** Where a match exists, the matcher finds one. *)
Lemma match_here_complete p : forall m rest,
  matches p m -> Re.match_here p (Re.group0 m ++ rest) <> None.
Proof.
  induction p as [|a p IH]; intros m rest Hm.
  - discriminate.
  - inversion Hm as [|a' piece p' m' Hpiece Hm' E1 E2]; subst.
    rewrite group0_cons, append_assoc. specialize (IH m' rest Hm').
    destruct a as [cls|cls|cls|cls]; simpl in Hpiece; simpl.
    + destruct Hpiece as (c & -> & Hc). simpl. rewrite Hc.
      destruct (Re.match_here p _); [discriminate | congruence].
    + destruct Hpiece as [-> | (c & -> & Hc)]; simpl.
      * destruct (Re.match_here p (Re.group0 m' ++ rest)) as [m0|] eqn:E; [|congruence].
        destruct (Re.group0 m' ++ rest)%string as [|c s] eqn:Es; simpl; [discriminate|].
        destruct (cls c); [destruct (Re.match_here p s)|]; discriminate.
      * rewrite Hc. destruct (Re.match_here p (Re.group0 m' ++ rest)); [discriminate | congruence].
    + apply greedy_complete; assumption.
    + destruct Hpiece as [Hall Hne]. destruct piece as [|c piece]; [congruence|].
      simpl in Hall. apply andb_true_iff in Hall as [Hc Hall]. simpl. rewrite Hc.
      pose proof (greedy_complete cls (Re.match_here p) piece _ Hall IH) as G.
      destruct (Re.greedy cls (Re.match_here p) _); [discriminate | congruence].
Qed.

(** [search] returns the match that starts first. *)
Lemma search_some p : forall s m,
  Re.search p s = Some m ->
  matches p m
  /\ exists pre,
      occurs_at pre (Re.group0 m) s
      /\ forall pre' m',
          matches p m' -> occurs_at pre' (Re.group0 m') s ->
          String.length pre <= String.length pre'.
Proof.
  induction s as [|c s IH]; intros m H; simpl in H.
  - destruct (Re.match_here p EmptyString) as [m0|] eqn:E; [|discriminate].
    injection H as <-. destruct (match_here_sound p _ _ E) as (Hm & rest & Er).
    split; [exact Hm|]. exists EmptyString. split.
    + exists rest. exact Er.
    + intros. simpl. lia.
  - destruct (Re.match_here p (String c s)) as [m0|] eqn:E.
    + injection H as <-. destruct (match_here_sound p _ _ E) as (Hm & rest & Er).
      split; [exact Hm|]. exists EmptyString. split.
      * exists rest. exact Er.
      * intros. simpl. lia.
    + destruct (IH m H) as (Hm & pre & (post & Epost) & Hfirst).
      split; [exact Hm|]. exists (String c pre). split.
      * exists post. simpl. now rewrite <- Epost.
      * intros pre' m' Hm' (post' & E').
        destruct pre' as [|c' pre'].
        -- simpl in E'. exfalso.
           apply (match_here_complete p m' post' Hm'). rewrite <- E'. exact E.
        -- simpl in E'. injection E' as _ E'. simpl.
           apply le_n_S. apply (Hfirst pre' m' Hm'). exists post'. exact E'.
Qed.

Lemma search_none p : forall s,
  Re.search p s = None ->
  forall pre m, matches p m -> ~ occurs_at pre (Re.group0 m) s.
Proof.
  induction s as [|c s IH]; intros H pre m Hm (post & E); simpl in H.
  - destruct (Re.match_here p EmptyString) eqn:E0; [discriminate|].
    destruct pre; [|discriminate]. simpl in E.
    apply (match_here_complete p m post Hm). rewrite <- E. exact E0.
  - destruct (Re.match_here p (String c s)) eqn:E0; [discriminate|].
    destruct pre as [|c' pre].
    + simpl in E. apply (match_here_complete p m post Hm). rewrite <- E. exact E0.
    + simpl in E. injection E as _ E. apply (IH H pre m Hm). exists post. exact E.
Qed.

(** *** Where a match ends

    A pattern that ends with a greedy repetition of a class matches up to a
    character outside the class, or up to the end of the text. *)

Lemma group0_push_any (c : ascii) (m : list string) :
  Re.group0 (Re.push c m) = String c (Re.group0 m).
Proof. destruct m as [|x m]; [reflexivity | apply group0_push]. Qed.

Lemma greedy_last cls (k : string -> option (list string)) :
  (forall s, k s = Some []) ->
  forall s m,
    Re.greedy cls k s = Some m ->
    exists rest, s = (Re.group0 m ++ rest)%string /\ stops cls rest.
Proof.
  intros Hk. induction s as [|c s IH]; intros m H; simpl in H.
  - rewrite Hk in H. injection H as <-.
    exists EmptyString. split; [reflexivity | exact I].
  - destruct (cls c) eqn:Hc.
    + destruct (Re.greedy cls k s) as [m0|] eqn:Eg.
      * injection H as <-. destruct (IH m0 eq_refl) as (rest & -> & Hr).
        exists rest. rewrite group0_push_any. split; [reflexivity | exact Hr].
      * exfalso. apply (greedy_fallback cls k s); [rewrite Hk; discriminate | exact Eg].
    + rewrite Hk in H. injection H as <-.
      exists (String c s). split; [reflexivity | exact Hc].
Qed.

Lemma greedy_keeps_end cls cls' (k : string -> option (list string)) :
  (forall s m, k s = Some m ->
               exists rest, s = (Re.group0 m ++ rest)%string /\ stops cls rest) ->
  forall s m, Re.greedy cls' k s = Some m ->
              exists rest, s = (Re.group0 m ++ rest)%string /\ stops cls rest.
Proof.
  intros Hk s m H.
  destruct (greedy_sound _ _ _ _ H) as (piece & m' & s' & -> & _ & -> & Hk').
  destruct (Hk s' m' Hk') as (rest & -> & Hr).
  exists rest. rewrite group0_cons, append_assoc. split; [reflexivity | exact Hr].
Qed.

Lemma match_here_stops cls p : forall s m,
  Re.match_here (p ++ [Re.Star cls])%list s = Some m ->
  exists rest, s = (Re.group0 m ++ rest)%string /\ stops cls rest.
Proof.
  induction p as [|a p IH]; intros s m H.
  - apply (greedy_last cls (Re.match_here [])); [reflexivity | exact H].
  - destruct a as [c0|c0|c0|c0]; cbn [app Re.match_here] in H.
    + destruct s as [|c s]; [discriminate|].
      destruct (c0 c); [|discriminate].
      destruct (Re.match_here (p ++ [Re.Star cls])%list s) as [m'|] eqn:E; [|discriminate].
      injection H as <-. destruct (IH s m' E) as (rest & -> & Hr).
      exists rest. rewrite group0_cons. split; [reflexivity | exact Hr].
    + assert (Hskip : option_map (cons EmptyString)
                        (Re.match_here (p ++ [Re.Star cls])%list s) = Some m ->
                      exists rest, s = (Re.group0 m ++ rest)%string /\ stops cls rest).
      { intros H'. destruct (Re.match_here (p ++ [Re.Star cls])%list s) as [m'|] eqn:E;
          [|discriminate].
        injection H' as <-. destruct (IH s m' E) as (rest & -> & Hr).
        exists rest. rewrite group0_cons. split; [reflexivity | exact Hr]. }
      destruct s as [|c s]; [auto|].
      destruct (c0 c); [|auto].
      destruct (Re.match_here (p ++ [Re.Star cls])%list s) as [m'|] eqn:E; [|auto].
      injection H as <-. destruct (IH s m' E) as (rest & -> & Hr).
      exists rest. rewrite group0_cons. split; [reflexivity | exact Hr].
    + apply (greedy_keeps_end cls c0 _ IH s m H).
    + destruct s as [|c s]; [discriminate|].
      destruct (c0 c); [|discriminate].
      destruct (Re.greedy c0 (Re.match_here (p ++ [Re.Star cls])%list) s) as [m0|] eqn:E;
        [|discriminate].
      injection H as <-.
      destruct (greedy_keeps_end cls c0 _ IH s m0 E) as (rest & -> & Hr).
      exists rest. rewrite group0_push_any. split; [reflexivity | exact Hr].
Qed.

(** [search] with such a pattern: the match that starts first, and where it
    ends. *)
Lemma search_some_stops cls p : forall s m,
  Re.search (p ++ [Re.Star cls])%list s = Some m ->
  exists pre post,
    s = (pre ++ Re.group0 m ++ post)%string
    /\ stops cls post
    /\ forall pre' m',
        matches (p ++ [Re.Star cls])%list m' -> occurs_at pre' (Re.group0 m') s ->
        String.length pre <= String.length pre'.
Proof.
  induction s as [|c s IH]; intros m H; simpl in H.
  - destruct (Re.match_here (p ++ [Re.Star cls])%list EmptyString) as [m0|] eqn:E;
      [|discriminate].
    injection H as <-. destruct (match_here_stops _ _ _ _ E) as (rest & Er & Hr).
    exists EmptyString, rest. split; [exact Er|]. split; [exact Hr|].
    intros. simpl. lia.
  - destruct (Re.match_here (p ++ [Re.Star cls])%list (String c s)) as [m0|] eqn:E.
    + injection H as <-. destruct (match_here_stops _ _ _ _ E) as (rest & Er & Hr).
      exists EmptyString, rest. split; [exact Er|]. split; [exact Hr|].
      intros. simpl. lia.
    + destruct (IH m H) as (pre & post & Epost & Hr & Hfirst).
      exists (String c pre), post. split; [simpl; now rewrite <- Epost|].
      split; [exact Hr|].
      intros pre' m' Hm' (post' & E').
      destruct pre' as [|c' pre'].
      * simpl in E'. exfalso.
        apply (match_here_complete _ m' post' Hm'). rewrite <- E'. exact E.
      * simpl in E'. injection E' as _ E'. simpl.
        apply le_n_S. apply (Hfirst pre' m' Hm'). exists post'. exact E'.
Qed.

(** ** Substrings *)

Lemma startswith_spec p : forall s,
  PyStr.startswith p s = true <-> exists post, s = (p ++ post)%string.
Proof.
  induction p as [|a p IH]; intros s; simpl.
  - split; [intros _; exists s; reflexivity | reflexivity].
  - destruct s as [|b s].
    + split; [discriminate | intros (post & E); discriminate].
    + rewrite andb_true_iff, Ascii.eqb_eq, IH. split.
      * intros (-> & post & ->). exists post. reflexivity.
      * intros (post & E). injection E as -> ->. split; [reflexivity|].
        exists post. reflexivity.
Qed.

Lemma contains_spec p : forall s,
  PyStr.contains p s = true <-> exists pre, occurs_at pre p s.
Proof.
  induction s as [|c s IH].
  - simpl. rewrite orb_false_r, startswith_spec. split.
    + intros (post & E). exists EmptyString, post. exact E.
    + intros (pre & post & E). destruct pre; [|discriminate].
      exists post. exact E.
  - cbn [PyStr.contains]. rewrite orb_true_iff, startswith_spec, IH. split.
    + intros [(post & E) | (pre & post & E)].
      * exists EmptyString, post. exact E.
      * exists (String c pre), post. simpl. now rewrite <- E.
    + intros (pre & post & E). destruct pre as [|c' pre].
      * left. exists post. exact E.
      * right. simpl in E. injection E as _ E. exists pre, post. exact E.
Qed.

Lemma endswith_spec p : forall s,
  PyStr.endswith p s = true <-> exists pre, s = (pre ++ p)%string.
Proof.
  induction s as [|c s IH].
  - simpl. rewrite orb_false_r, String.eqb_eq. split.
    + intros ->. exists EmptyString. reflexivity.
    + intros (pre & E). destruct pre; simpl in E; [auto | discriminate].
  - cbn [PyStr.endswith]. rewrite orb_true_iff, String.eqb_eq, IH. split.
    + intros [-> | (pre & ->)].
      * exists EmptyString. reflexivity.
      * exists (String c pre). reflexivity.
    + intros (pre & E). destruct pre as [|c' pre].
      * left. simpl in E. auto.
      * right. simpl in E. injection E as _ E. exists pre. exact E.
Qed.

Lemma endswith_contains p s :
  PyStr.endswith p s = true -> PyStr.contains p s = true.
Proof.
  rewrite endswith_spec, contains_spec. intros (pre & ->).
  exists pre, EmptyString. now rewrite append_nil_r.
Qed.

(** ** The submit pattern *)

Lemma lit_eq x c : Re.lit x c = true -> c = x.
Proof. unfold Re.lit. apply Ascii.eqb_eq. Qed.

Lemma submit_pattern_sound m :
  matches submit_pattern m -> is_submit_url (Re.group0 m).
Proof.
  unfold matches, submit_pattern. simpl. intros H.
  repeat match goal with
         | H : Forall2 _ (_ :: _) _ |- _ => inversion H; clear H; subst
         | H : Forall2 _ [] _ |- _ => inversion H; clear H; subst
         end.
  simpl in *.
  repeat match goal with
         | H : exists c, _ /\ Re.lit _ c = true |- _ =>
             let c := fresh "c" in
             let E := fresh "E" in
             destruct H as (c & -> & E); apply lit_eq in E; subst c
         | H : _ /\ _ |- _ => destruct H
         end.
  match goal with
  | Ha : all_in url_char ?a = true, Hn : ?a <> EmptyString,
    Hb : all_in url_char ?b = true |- _ => exists a, b
  end.
  repeat split; try assumption.
  match goal with
  | H : _ \/ _ |- _ =>
      destruct H as [-> | (c & -> & E)]; [left | right; apply lit_eq in E; subst c]
  end; unfold Re.group0; simpl; rewrite ?append_nil_r; reflexivity.
Qed.

Lemma submit_pattern_complete u :
  is_submit_url u -> exists m, matches submit_pattern m /\ Re.group0 m = u.
Proof.
  intros (a & b & Hu & Hne & Ha & Hb).
  assert (L : forall x, exists c, String x EmptyString = String c EmptyString
                                  /\ Re.lit x c = true).
  { intros x. exists x. split; [reflexivity | apply Ascii.eqb_refl]. }
  destruct Hu as [-> | ->].
  - exists ["h"; "t"; "t"; "p"; ""; ":"; "/"; "/"; a;
            "/"; "s"; "u"; "b"; "m"; "i"; "t"; b]%string.
    split.
    + unfold matches, submit_pattern. simpl.
      repeat (constructor; [first [ apply L | left; reflexivity
                                  | split; assumption | assumption ]|]).
      constructor.
    + unfold Re.group0. simpl. reflexivity.
  - exists ["h"; "t"; "t"; "p"; "s"; ":"; "/"; "/"; a;
            "/"; "s"; "u"; "b"; "m"; "i"; "t"; b]%string.
    split.
    + unfold matches, submit_pattern. simpl.
      repeat (constructor; [first [ apply L | right; apply L
                                  | split; assumption | assumption ]|]).
      constructor.
    + unfold Re.group0. simpl. reflexivity.
Qed.

(** What the search for the submit URL returns: the submit URL that starts
    first in the text, or nothing when the text has none. *)
Lemma submit_search_spec content :
  match option_map Re.group0 (Re.search submit_pattern content) with
  | Some u =>
      is_submit_url u
      /\ exists pre,
          occurs_at pre u content
          /\ forall pre' u',
              is_submit_url u' -> occurs_at pre' u' content ->
              String.length pre <= String.length pre'
  | None => forall pre u, is_submit_url u -> ~ occurs_at pre u content
  end.
Proof.
  destruct (Re.search submit_pattern content) as [m|] eqn:E; simpl.
  - destruct (search_some _ _ _ E) as (Hm & pre & Hocc & Hfirst).
    split; [apply submit_pattern_sound, Hm|].
    exists pre. split; [exact Hocc|].
    intros pre' u' Hu' Hocc'.
    destruct (submit_pattern_complete u' Hu') as (m' & Hm' & <-).
    eapply Hfirst; eauto.
  - intros pre u Hu Hocc.
    destruct (submit_pattern_complete u Hu) as (m' & Hm' & <-).
    exact (search_none _ _ E pre m' Hm' Hocc).
Qed.

Lemma no_submit_url_no_match content :
  (forall pre u, is_submit_url u -> ~ occurs_at pre u content) ->
  Re.search submit_pattern content = None.
Proof.
  intros H. destruct (Re.search submit_pattern content) as [m|] eqn:E; [|reflexivity].
  exfalso. destruct (search_some _ _ _ E) as (Hm & pre & Hocc & _).
  exact (H pre _ (submit_pattern_sound m Hm) Hocc).
Qed.

(** *** The end of the submit URL *)

Lemma all_in_app cls (a b : string) :
  all_in cls (a ++ b) = all_in cls a && all_in cls b.
Proof.
  induction a as [|c a IH]; simpl; [reflexivity|].
  now rewrite IH, andb_assoc.
Qed.

(** A submit URL is a run of URL characters. *)
Lemma submit_url_chars u : is_submit_url u -> all_in url_char u = true.
Proof.
  intros (a & b & Hu & _ & Ha & Hb).
  destruct Hu as [-> | ->]; rewrite !all_in_app, Ha, Hb; reflexivity.
Qed.

Lemma append_inv_head (pre x y : string) :
  (pre ++ x)%string = (pre ++ y)%string -> x = y.
Proof.
  induction pre as [|c pre IH]; simpl; intros H; [exact H|].
  injection H as H. auto.
Qed.

(** Of two runs of the class that start at the same place, the one that is
    followed by a character outside the class is the longer. *)
Lemma run_is_longest cls : forall u u' post post',
  (u ++ post)%string = (u' ++ post')%string ->
  stops cls post -> all_in cls u' = true ->
  String.length u' <= String.length u.
Proof.
  induction u as [|c u IH]; intros u' post post' E Hstop Hall.
  - destruct u' as [|c' u']; [simpl; lia|].
    simpl in E. subst post. simpl in Hstop, Hall.
    apply andb_true_iff in Hall as [Hc _]. congruence.
  - destruct u' as [|c' u']; [simpl; lia|].
    simpl in E. injection E as _ E. simpl in Hall.
    apply andb_true_iff in Hall as [_ Hall]. simpl.
    apply le_n_S. eapply IH; eauto.
Qed.

(** What the search for the submit URL returns: the submit URL that starts
    first in the text, taken as far as URL characters go, so that it is the
    longest submit URL that starts there. *)
Lemma submit_search_longest content u :
  option_map Re.group0 (Re.search submit_pattern content) = Some u ->
  is_submit_url u
  /\ exists pre post,
      content = (pre ++ u ++ post)%string
      /\ stops url_char post
      /\ (forall pre' u',
             is_submit_url u' -> occurs_at pre' u' content ->
             String.length pre <= String.length pre')
      /\ (forall u',
             is_submit_url u' -> occurs_at pre u' content ->
             String.length u' <= String.length u).
Proof.
  destruct (Re.search submit_pattern content) as [m|] eqn:E; [|discriminate].
  intros H. injection H as <-.
  destruct (search_some _ _ _ E) as (Hm & _).
  change submit_pattern
    with ((Re.word "http" ++ [Re.Opt (Re.lit "s")] ++ Re.word "://"
           ++ [Re.Plus url_char] ++ Re.word "/submit") ++ [Re.Star url_char])%list
    in E.
  destruct (search_some_stops _ _ _ _ E) as (pre & post & Ec & Hstop & Hfirst).
  split; [apply submit_pattern_sound, Hm|].
  exists pre, post. split; [exact Ec|]. split; [exact Hstop|]. split.
  - intros pre' u' Hu' Hocc'.
    destruct (submit_pattern_complete u' Hu') as (m' & Hm' & <-).
    apply (Hfirst pre' m'); [exact Hm' | exact Hocc'].
  - intros u' Hu' (post' & Ec').
    rewrite Ec in Ec'. apply append_inv_head in Ec'.
    apply (run_is_longest url_char _ _ post post' Ec' Hstop).
    apply submit_url_chars, Hu'.
Qed.

(** ** Parsing the quiz page, and submitting *)

Section ParseAndSubmit.

Context {F : Type}.
Variable env : @Collaborators F.
Variable settings : Settings.t.

(** The fields of the task that do not depend on the language model. *)
Lemma parse_quiz_task_fields qd (w : @World F) :
  exists ti,
    fst (parse_quiz_task env qd w) = Some ti
    /\ raw_content ti = soup_get_text env (qd_content qd)
    /\ submit_url ti
       = option_map Re.group0 (Re.search submit_pattern (qd_content qd))
    /\ file_urls ti
       = filter is_data_file_link (soup_hrefs env (qd_content qd)).
Proof.
  unfold parse_quiz_task, bind. cbv zeta.
  destruct (analyze_text env _ _ w) as [d w']. simpl.
  eexists. split; [reflexivity|]. simpl. auto.
Qed.

Lemma is_data_file_link_spec href :
  is_data_file_link href = true
  <-> exists ext pre, In ext data_file_extensions /\ occurs_at pre ext href.
Proof.
  unfold is_data_file_link. rewrite existsb_exists. split.
  - intros (ext & Hin & Hc). apply contains_spec in Hc as (pre & Hocc).
    exists ext, pre. auto.
  - intros (ext & pre & Hin & Hocc). exists ext. split; [exact Hin|].
    apply contains_spec. exists pre. exact Hocc.
Qed.

(** C5, as amended. The file URLs of the task are, in document order,
    the hyperlink targets that contain one of the extensions .pdf, .csv,
    .json, .xlsx, .txt anywhere in them; a target that contains none is
    not collected, and one that ends in an extension is. *)
Theorem file_urls_are_links_containing_an_extension qd (w : @World F) :
  exists ti,
    fst (parse_quiz_task env qd w) = Some ti
    /\ file_urls ti
       = filter is_data_file_link (soup_hrefs env (qd_content qd))
    /\ (forall href,
           In href (file_urls ti)
           <-> In href (soup_hrefs env (qd_content qd))
               /\ exists ext pre,
                   In ext data_file_extensions /\ occurs_at pre ext href)
    /\ (forall href,
           In href (soup_hrefs env (qd_content qd)) ->
           PyStr.endswith_any data_file_extensions href = true ->
           In href (file_urls ti)).
Proof.
  destruct (parse_quiz_task_fields qd w) as (ti & E & _ & _ & Ef).
  exists ti. split; [exact E|]. split; [exact Ef|]. split.
  - intros href. rewrite Ef, filter_In, is_data_file_link_spec. reflexivity.
  - intros href Hin Hend. rewrite Ef. apply filter_In. split; [exact Hin|].
    unfold PyStr.endswith_any in Hend. apply existsb_exists in Hend as (ext & Hext & He).
    unfold is_data_file_link. apply existsb_exists. exists ext.
    split; [exact Hext | apply endswith_contains, He].
Qed.

(** C3. A payload whose serialised size exceeds the ceiling of the
    settings (1 048 576 bytes unless configured otherwise) is not sent:
    [submit_answer] returns no verdict, and all it does is write the
    "payload too large" line to the log; no POST is recorded and no time
    passes. *)
Theorem oversized_payload_is_never_posted
        submit_url email secret quiz_url answer (w : @World F) :
  (Settings.max_payload_size settings
   < Z.of_nat (get_payload_size env (mkPayload email secret quiz_url answer)))%Z ->
  submit_answer env settings submit_url email secret quiz_url answer w
  = (None,
     record (EvLog (LogPayloadTooLarge
                      (get_payload_size env
                         (mkPayload email secret quiz_url answer)))) w)
  /\ posts (trace (snd (submit_answer env settings submit_url email secret
                          quiz_url answer w)))
     = posts (trace w)
  /\ Settings.max_payload_size Settings.default = 1048576%Z.
Proof.
  intros H. apply Z.ltb_lt in H.
  assert (E : submit_answer env settings submit_url email secret quiz_url answer w
              = (None,
                 record (EvLog (LogPayloadTooLarge
                                  (get_payload_size env
                                     (mkPayload email secret quiz_url answer)))) w)).
  { unfold submit_answer. cbv zeta. rewrite H. reflexivity. }
  rewrite E. simpl. auto.
Qed.

(** Without a submit URL in the task, [solve_single_quiz] gives no next
    URL and posts nothing. *)
Lemma solve_single_quiz_without_submit_url
      url email secret tr (w w1 w2 : @World F) qd ti :
  fetch_quiz_page env url w = (Some qd, w1) ->
  parse_quiz_task env qd w1 = (Some ti, w2) ->
  submit_url ti = None ->
  fst (solve_single_quiz env settings url email secret tr w) = None
  /\ posts (trace (snd (solve_single_quiz env settings url email secret tr w)))
     = posts (trace w).
Proof.
  intros Hf Hp Hsub. unfold solve_single_quiz, bind, log, emit, ret.
  pose proof (adds_posts (fetch_quiz_page env url) w
                (proj1 (fetch_quiz_page_quiet env url))) as P1.
  pose proof (adds_posts (parse_quiz_task env qd) w1
                (proj1 (parse_quiz_task_quiet env qd))) as P2.
  rewrite Hf in *. rewrite Hp in *. simpl in P1, P2.
  set (w2' := record _ w2).
  pose proof (adds_posts (solve_task env ti) w2'
                (proj1 (solve_task_quiet env ti))) as P3.
  destruct (solve_task env ti w2') as [[a|] w3] eqn:Es; simpl in P3.
  - rewrite Hsub. cbn [fst snd]. split; [reflexivity|].
    cbn [record trace posts filter is_post]. fold (posts (trace w3)).
    rewrite P3. subst w2'. simpl. congruence.
  - cbn [fst snd]. split; [reflexivity|].
    cbn [record trace posts filter is_post]. fold (posts (trace w3)).
    rewrite P3. subst w2'. simpl. congruence.
Qed.

(** C7, as amended. In an iteration that has fetched and parsed its
    page, the submit URL of the task is the submit URL that starts first
    in the rendered content, taken as far as it goes: it occurs there, no
    occurrence of a submit URL starts before it, what follows it in the
    content is not a URL character, and so it is the longest submit URL
    that starts at that place. When the content has none, the submit URL
    is left empty; the iteration then returns no next URL, nothing is
    posted, and the loop ends there. *)
Theorem submit_url_is_first_match_else_no_submission
        fuel email secret url count (w w1 w2 : @World F) qd ti :
  PyStr.truthy url = true ->
  fst (is_timeout env w) = false ->
  fetch_quiz_page env url
    (snd (announce env (S count) url (snd (is_timeout env w)))) = (Some qd, w1) ->
  parse_quiz_task env qd w1 = (Some ti, w2) ->
  match submit_url ti with
  | Some u =>
      is_submit_url u
      /\ exists pre post,
          qd_content qd = (pre ++ u ++ post)%string
          /\ stops url_char post
          /\ (forall pre' u',
                 is_submit_url u' ->
                 occurs_at pre' u' (qd_content qd) ->
                 String.length pre <= String.length pre')
          /\ (forall u',
                 is_submit_url u' ->
                 occurs_at pre u' (qd_content qd) ->
                 String.length u' <= String.length u)
  | None =>
      let s := announce env (S count) url (snd (is_timeout env w)) in
      let r := solve_single_quiz env settings url email secret (fst s) (snd s) in
      (forall pre u, is_submit_url u -> ~ occurs_at pre u (qd_content qd))
      /\ fst r = None
      /\ posts (trace (snd r)) = posts (trace w)
      /\ chain_loop env settings (S fuel) email secret url count w
         = (Some (S count), record (EvLog LogChainCompleted) (snd r))
  end.
Proof.
  intros Hu Hexp Hf Hp.
  destruct (parse_quiz_task_fields qd w1) as (ti' & E & _ & Esub & _).
  rewrite Hp in E. simpl in E. injection E as <-.
  destruct (submit_url ti) as [u|] eqn:Eu.
  { apply submit_search_longest. now rewrite <- Esub. }
  pose proof (submit_search_spec (qd_content qd)) as Hspec.
  rewrite <- Esub in Hspec.
  intros s r.
  destruct (solve_single_quiz_without_submit_url url email secret (fst s) _ _ _ _ _
              Hf Hp Eu) as (Hr & Hposts).
  fold s in Hr, Hposts. fold r in Hr, Hposts.
  split; [exact Hspec|]. split; [exact Hr|]. split.
  - rewrite Hposts. unfold s.
    destruct (announce_trace env (S count) url (snd (is_timeout env w))) as (q & ->).
    simpl. destruct (is_timeout_value env w) as (_ & _ & ->). reflexivity.
  - rewrite chain_loop_turn by exact Hu. rewrite Hexp. cbv zeta.
    fold s. fold r. unfold after_iteration. rewrite Hr. reflexivity.
Qed.

End ParseAndSubmit.

(** ** Page numbers *)













Section HandlerFacts.

Context {F : Type}.
Variable env : @Collaborators F.
Variable settings : Settings.t.

Lemma extract_all_texts path texts : forall i (w : @World F),
  fst (extract_all path i (map Some texts) w) = Some texts.
Proof.
  induction texts as [|t texts IH]; intros i w; simpl; [reflexivity|].
  unfold bind, emit. simpl.
  specialize (IH (i + 1)%Z (record (EvPdfPage path i) w)).
  destruct (extract_all path (i + 1) (map Some texts) _) as [r w']. simpl in *.
  now rewrite IH.
Qed.



Lemma pdf_text_single_missing path pages n (w : @World F) :
  (1 <= n)%Z ->
  nth_error pages (Z.to_nat (n - 1)) = None ->
  fst (pdf_text path pages (Some n) w) = None.
Proof.
  intros Hn Hp. unfold pdf_text, truthy_int, py_index.
  assert (E0 : (n =? 0)%Z = false) by (apply Z.eqb_neq; lia).
  assert (E1 : (n - 1 <? 0)%Z = false) by (apply Z.ltb_ge; lia).
  rewrite E0. simpl. unfold bind, emit. rewrite E1, Hp. reflexivity.
Qed.


Lemma pdf_text_all path texts (w : @World F) :
  fst (pdf_text path (map Some texts) None w) = Some (PyStr.join nl texts).
Proof.
  unfold pdf_text, bind.
  pose proof (extract_all_texts path texts 0%Z w) as E.
  destruct (extract_all path 0 (map Some texts) w) as [r w']. simpl in *.
  now rewrite E.
Qed.

(** All pages can be read: they are read in order, once each. *)
Lemma extract_all_ok path texts : forall i (w : @World F),
  extract_all path i (map Some texts) w
  = (Some texts,
     mkWorld (now w) (timer w)
       (rev (map (EvPdfPage path) (page_indices i (List.length texts)))
          ++ trace w)%list).
Proof.
  induction texts as [|t texts IH]; intros i w.
  - destruct w; reflexivity.
  - cbn [map extract_all]. unfold bind, emit.
    rewrite IH. cbn [ret option_map List.length page_indices map rev fst snd
                       record now timer trace].
    rewrite <- app_assoc. reflexivity.
Qed.

(** A page cannot be read: the reading stops there. *)
Lemma extract_all_fails path texts rest : forall i (w : @World F),
  extract_all path i (map Some texts ++ None :: rest)%list w
  = (None,
     mkWorld (now w) (timer w)
       (rev (map (EvPdfPage path) (page_indices i (S (List.length texts))))
          ++ trace w)%list).
Proof.
  induction texts as [|t texts IH]; intros i w.
  - destruct w; reflexivity.
  - cbn [map app extract_all]. unfold bind, emit.
    rewrite IH. cbn [ret option_map List.length page_indices map rev fst snd
                       record now timer trace].
    rewrite <- !app_assoc. reflexivity.
Qed.

(** [analyze_text] with a context that is not empty. *)
Lemma analyze_text_with_context prompt context (w : @World F) :
  PyStr.truthy context = true ->
  analyze_text env prompt (Some context) w
  = (chat_completion env (now w) (trace w) (asked_with_context context prompt),
     pass env (record (EvChat (asked_with_context context prompt)) w)).
Proof. intros H. unfold analyze_text, call. rewrite H. reflexivity. Qed.



(** The PDF handler without a page number, or with the page number 0:
    every page is read, in order, and the model is given the texts joined
    by newlines. *)
Lemma pdf_handler_all_pages description path texts pn (w : @World F) :
  pdf_pages env (now w) (trace w) path = Some (map Some texts) ->
  pn = None \/ pn = Some 0%Z ->
  let opened := pass env (record (EvPdfOpen path) w) in
  let read :=
    mkWorld (now opened) (timer opened)
      (rev (map (EvPdfPage path) (page_indices 0%Z (List.length texts)))
         ++ trace opened)%list in
  let messages :=
    asked_with_context ("PDF Content:" ++ nl ++ PyStr.join nl texts) description in
  PDFProcessingHandler_handle env description path pn w
  = (option_map AStr (chat_completion env (now read) (trace read) messages),
     pass env (record (EvChat messages) read)).
Proof.
  intros Hpages Hpn opened read messages.
  unfold PDFProcessingHandler_handle, bind, call. rewrite Hpages.
  assert (E : pdf_text path (map Some texts) pn (pass env (record (EvPdfOpen path) w))
              = (Some (PyStr.join nl texts), read)).
  { destruct Hpn as [-> | ->]; unfold pdf_text; cbn [truthy_int Z.eqb negb];
      unfold bind; rewrite extract_all_ok; reflexivity. }
  rewrite E. rewrite analyze_text_with_context by reflexivity. reflexivity.
Qed.






End HandlerFacts.

(** * Further properties of the code *)

(** ** File names *)

Lemma str_replace_char_map x y s :
  str_replace_char x y s
  = string_map (fun c => if Ascii.eqb c x then y else c) s.
Proof. induction s as [|c s IH]; simpl; [reflexivity | now rewrite IH]. Qed.

Lemma string_map_map f g s :
  string_map f (string_map g s) = string_map (fun c => f (g c)) s.
Proof. induction s as [|c s IH]; simpl; [reflexivity | now rewrite IH]. Qed.

Lemma string_map_ext f g s :
  (forall c, f c = g c) -> string_map f s = string_map g s.
Proof.
  intros H. induction s as [|c s IH]; simpl; [reflexivity | now rewrite H, IH].
Qed.

Lemma string_map_length f s : String.length (string_map f s) = String.length s.
Proof. induction s as [|c s IH]; simpl; [reflexivity | now rewrite IH]. Qed.

Lemma sanitize_filename_map s :
  sanitize_filename s = string_map clean_char s.
Proof.
  unfold sanitize_filename, invalid_chars. cbn [fold_left].
  rewrite !str_replace_char_map, !string_map_map.
  apply string_map_ext.
  intros [[] [] [] [] [] [] [] []]; reflexivity.
Qed.

Lemma clean_char_clean c : is_invalid_char (clean_char c) = false.
Proof. destruct c as [[] [] [] [] [] [] [] []]; reflexivity. Qed.

Lemma clean_char_fixed c : is_invalid_char c = false -> clean_char c = c.
Proof. unfold clean_char. now intros ->. Qed.

(** X1. [sanitize_filename] is one pass over the name that turns each of
    the nine invalid characters into an underscore and keeps every other
    character where it is: the length is kept, no invalid character is
    left, a second pass changes nothing, and a name comes back unchanged
    exactly when it had no invalid character. *)
Theorem sanitize_filename_spec (filename : string) :
  sanitize_filename filename = string_map clean_char filename
  /\ String.length (sanitize_filename filename) = String.length filename
  /\ all_in (fun c => negb (is_invalid_char c)) (sanitize_filename filename) = true
  /\ sanitize_filename (sanitize_filename filename) = sanitize_filename filename
  /\ (sanitize_filename filename = filename
      <-> all_in (fun c => negb (is_invalid_char c)) filename = true).
Proof.
  rewrite !sanitize_filename_map. split; [reflexivity|].
  split; [apply string_map_length|]. split; [|split].
  - induction filename as [|c s IH]; simpl; [reflexivity|].
    now rewrite clean_char_clean, IH.
  - rewrite string_map_map. apply string_map_ext.
    intros c. apply clean_char_fixed, clean_char_clean.
  - induction filename as [|c s IH]; simpl; [tauto|].
    rewrite andb_true_iff, negb_true_iff, <- IH. split.
    + intros E. injection E as Ec Es. split; [|exact Es].
      unfold clean_char in Ec. destruct (is_invalid_char c) eqn:Ei; [|reflexivity].
      subst c. discriminate Ei.
    + intros [Ec Es]. now rewrite (clean_char_fixed c Ec), Es.
Qed.

(** ** Where a download is saved *)

Lemma contains_char_cons x c s :
  PyStr.contains (String x EmptyString) (String c s)
  = Ascii.eqb x c || PyStr.contains (String x EmptyString) s.
Proof. simpl. now rewrite andb_true_r. Qed.

Lemma contains_char_nil x : PyStr.contains (String x EmptyString) EmptyString = false.
Proof. reflexivity. Qed.

Lemma contains_char_app x a b :
  PyStr.contains (String x EmptyString) (a ++ b)
  = PyStr.contains (String x EmptyString) a
    || PyStr.contains (String x EmptyString) b.
Proof.
  induction a as [|c a IH].
  - now rewrite contains_char_nil.
  - cbn [append]. rewrite !contains_char_cons, IH. now rewrite orb_assoc.
Qed.

Lemma before_first_no_sep sep s :
  PyStr.contains (String sep EmptyString) (PyStr.before_first sep s) = false.
Proof.
  induction s as [|c s IH]; cbn [PyStr.before_first]; [reflexivity|].
  destruct (Ascii.eqb c sep) eqn:E; [reflexivity|].
  rewrite contains_char_cons, IH, Ascii.eqb_sym, E. reflexivity.
Qed.

Lemma before_first_prefix sep s :
  exists post, s = (PyStr.before_first sep s ++ post)%string.
Proof.
  induction s as [|c s (post & IH)]; cbn [PyStr.before_first].
  - exists EmptyString. reflexivity.
  - destruct (Ascii.eqb c sep).
    + exists (String c s). reflexivity.
    + exists post. cbn [append]. now rewrite <- IH.
Qed.

Lemma after_last_no_sep sep s :
  PyStr.contains (String sep EmptyString) (PyStr.after_last sep s) = false.
Proof.
  induction s as [|c s IH]; cbn [PyStr.after_last]; [reflexivity|].
  destruct (PyStr.contains (String sep EmptyString) s) eqn:Es; [exact IH|].
  destruct (Ascii.eqb c sep) eqn:E; [exact Es|].
  rewrite contains_char_cons, Es, Ascii.eqb_sym, E. reflexivity.
Qed.

Lemma after_last_suffix sep s :
  exists pre, s = (pre ++ PyStr.after_last sep s)%string.
Proof.
  induction s as [|c s (pre & IH)]; cbn [PyStr.after_last].
  - exists EmptyString. reflexivity.
  - destruct (PyStr.contains (String sep EmptyString) s).
    + exists (String c pre). cbn [append]. now rewrite <- IH.
    + destruct (Ascii.eqb c sep).
      * exists (String c EmptyString). reflexivity.
      * exists EmptyString. reflexivity.
Qed.

Lemma after_last_app sep dir t :
  PyStr.contains (String sep EmptyString) t = false ->
  PyStr.after_last sep (dir ++ String sep t) = t.
Proof.
  intros Ht. induction dir as [|c dir IH]; cbn [append PyStr.after_last].
  - now rewrite Ht, Ascii.eqb_refl.
  - rewrite contains_char_app, contains_char_cons, Ascii.eqb_refl, orb_true_r.
    exact IH.
Qed.

Lemma before_first_app sep name rest :
  PyStr.contains (String sep EmptyString) name = false ->
  PyStr.before_first sep (name ++ String sep rest) = name.
Proof.
  induction name as [|c name IH]; cbn [append PyStr.before_first]; intros H.
  - now rewrite Ascii.eqb_refl.
  - rewrite contains_char_cons in H. apply orb_false_iff in H as [Hc Hn].
    rewrite Ascii.eqb_sym, Hc, (IH Hn). reflexivity.
Qed.

Lemma download_path_root name :
  PyStr.startswith "downloads" (download_path name) = true.
Proof.
  unfold download_path. destruct (_ || _); reflexivity.
Qed.

(** X2. The file of a URL is saved directly under [downloads]: its name is
    the part of the URL after the last slash, up to the first question
    mark, so it has no slash and no question mark in it. Two URLs that
    differ only in what is before the last slash, or in a query string
    without a slash, are therefore saved to the same path. *)
Theorem download_destination (url dir name query : string) :
  PyStr.contains "/" name = false ->
  PyStr.contains "?" name = false ->
  PyStr.contains "/" query = false ->
  (exists file pre post,
      url = (pre ++ file ++ post)%string
      /\ PyStr.contains "/" file = false
      /\ PyStr.contains "?" file = false
      /\ file_path_of url = download_path file
      /\ PyStr.startswith "downloads" (file_path_of url) = true)
  /\ file_path_of (dir ++ "/" ++ name ++ "?" ++ query) = download_path name
  /\ file_path_of (dir ++ "/" ++ name) = download_path name.
Proof.
  intros Hn Hq Hquery. split; [|split].
  - destruct (after_last_suffix "/" url) as (pre & Epre).
    destruct (before_first_prefix "?" (PyStr.after_last "/" url)) as (post & Epost).
    exists (PyStr.before_first "?" (PyStr.after_last "/" url)), pre, post.
    split; [now rewrite <- Epost|]. split; [|split; [|split]].
    + pose proof (after_last_no_sep "/" url) as H. rewrite Epost in H.
      rewrite contains_char_app in H. apply orb_false_iff in H. tauto.
    + apply before_first_no_sep.
    + reflexivity.
    + apply download_path_root.
  - unfold file_path_of. cbn [append].
    rewrite after_last_app.
    + now rewrite before_first_app.
    + rewrite contains_char_app, contains_char_cons, Hn, Hquery. reflexivity.
  - unfold file_path_of. cbn [append]. rewrite after_last_app by exact Hn.
    f_equal. clear Hn Hquery.
    induction name as [|c name IH]; cbn [PyStr.before_first]; [reflexivity|].
    rewrite contains_char_cons in Hq. apply orb_false_iff in Hq as [Hc Hrest].
    rewrite Ascii.eqb_sym, Hc, (IH Hrest). reflexivity.
Qed.

(** ** The size of a payload *)

Lemma utf8_len_app a b : utf8_len (a ++ b) = utf8_len a + utf8_len b.
Proof.
  induction a as [|c a IH]; simpl; [reflexivity|]. rewrite IH. lia.
Qed.

Lemma json_escape_char_size c :
  utf8_len (json_escape_char c) = String.length (json_escape_char c)
  /\ 1 <= String.length (json_escape_char c) <= 6.
Proof.
  destruct c as [[] [] [] [] [] [] [] []]; vm_compute; repeat split;
    repeat constructor.
Qed.

Lemma json_escape_size s :
  utf8_len (json_escape s) = String.length (json_escape s)
  /\ String.length s <= String.length (json_escape s) <= 6 * String.length s.
Proof.
  induction s as [|c s (IH1 & IH2)]; simpl; [lia|].
  destruct (json_escape_char_size c) as (E & B).
  rewrite utf8_len_app, length_append, E, IH1. lia.
Qed.

Lemma json_string_size s :
  utf8_len (json_string s) = 2 + String.length (json_escape s).
Proof.
  unfold json_string. cbn [utf8_len]. rewrite utf8_len_app.
  destruct (json_escape_size s) as (E & _). rewrite E. simpl. lia.
Qed.

Section PayloadFacts.

Context {F : Type}.
Variable env : @Collaborators F.
Variable settings : Settings.t.

Lemma payload_size_text email secret url a :
  get_payload_size env (mkPayload email secret url (AStr a))
  = 52 + String.length (json_escape email) + String.length (json_escape secret)
    + String.length (json_escape url) + String.length (json_escape a).
Proof.
  unfold get_payload_size, json_dumps. cbn [p_email p_secret p_url p_answer json_answer].
  rewrite !utf8_len_app, !json_string_size. simpl. lia.
Qed.

(** The two ways [submit_answer] can go: refused for its size, or posted
    once, the verdict being returned only for a status of 200 with a
    well-formed body. *)
Lemma submit_answer_outcome su email secret url a (w : @World F) :
  let p := mkPayload email secret url a in
  let size := get_payload_size env p in
  let r := submit_answer env settings su email secret url a w in
  if (Settings.max_payload_size settings <? Z.of_nat size)%Z
  then r = (None, record (EvLog (LogPayloadTooLarge size)) w)
  else
    posts (trace (snd r)) = EvPost su p :: posts (trace w)
    /\ forall v,
        fst r = Some v
        <-> http_post env (now w)
              (EvLog (LogPayloadSize size) :: EvLog (LogSubmitting su) :: trace w)
              su p
            = PostStatus 200 (Some v).
Proof.
  intros p size r. unfold r, submit_answer. cbv zeta. fold p. fold size.
  destruct (Settings.max_payload_size settings <? Z.of_nat size)%Z; [reflexivity|].
  unfold bind, log, emit, call, ret. simpl.
  destruct (http_post env _ _ su p) as [|status verdict] eqn:E; simpl.
  - split; [reflexivity|]. intros v. split; discriminate.
  - destruct (status =? 200)%Z eqn:Es.
    + apply Z.eqb_eq in Es. subst status.
      destruct verdict as [v0|]; simpl; (split; [reflexivity|]);
        intros v; split; intros H; try discriminate; congruence.
    + simpl. split; [reflexivity|]. intros v. split; [discriminate|].
      intros H. injection H as -> _. discriminate Es.
Qed.

(** X3. For texts of characters below U+0100, which are the texts of this
    embedding (beyond U+FFFF a character takes twelve bytes, and the
    bounds below are not those of the code): the size computed for a
    payload with a text answer is 52 bytes of punctuation and keys plus
    the escaped lengths of the four texts, each character taking between
    one and six bytes. So a payload whose texts together are longer than
    the ceiling is refused without a POST, and one whose texts take at
    most a sixth of what the ceiling leaves is posted, exactly once. *)
Theorem payload_size_bounds su email secret url a (w : @World F) :
  let total := String.length email + String.length secret
               + String.length url + String.length a in
  let size := get_payload_size env (mkPayload email secret url (AStr a)) in
  let r := submit_answer env settings su email secret url (AStr a) w in
  52 + total <= size <= 52 + 6 * total
  /\ ((Settings.max_payload_size settings < Z.of_nat (52 + total))%Z ->
      fst r = None /\ posts (trace (snd r)) = posts (trace w))
  /\ ((Z.of_nat (52 + 6 * total) <= Settings.max_payload_size settings)%Z ->
      posts (trace (snd r))
      = EvPost su (mkPayload email secret url (AStr a)) :: posts (trace w)).
Proof.
  intros total size r.
  assert (B : 52 + total <= size <= 52 + 6 * total).
  { unfold size, total. rewrite payload_size_text.
    pose proof (json_escape_size email) as (_ & ?).
    pose proof (json_escape_size secret) as (_ & ?).
    pose proof (json_escape_size url) as (_ & ?).
    pose proof (json_escape_size a) as (_ & ?). lia. }
  split; [exact B|]. split.
  - intros H.
    pose proof (submit_answer_outcome su email secret url (AStr a) w) as O.
    cbv zeta in O. fold size in O. fold r in O.
    assert (E : (Settings.max_payload_size settings <? Z.of_nat size)%Z = true)
      by (apply Z.ltb_lt; lia).
    rewrite E in O. rewrite O. auto.
  - intros H.
    pose proof (submit_answer_outcome su email secret url (AStr a) w) as O.
    cbv zeta in O. fold size in O. fold r in O.
    assert (E : (Settings.max_payload_size settings <? Z.of_nat size)%Z = false)
      by (apply Z.ltb_ge; lia).
    rewrite E in O. apply O.
Qed.

End PayloadFacts.

(** ** Relations kept by every stage *)

Section Respect.

Context {F : Type}.
Variable env : @Collaborators F.
Variable settings : Settings.t.

(** A reflexive and transitive relation between worlds. *)
Variable R : @World F -> @World F -> Prop.
Hypothesis R_refl : forall w, R w w.
Hypothesis R_trans : forall a b c, R a b -> R b c -> R a c.

Lemma respects_ret {A} (a : A) : respects R (@ret F A a).
Proof. intros w. apply R_refl. Qed.

Lemma respects_bind {A B} (m : @M F A) (f : A -> @M F B) :
  respects R m -> (forall a, respects R (f a)) -> respects R (bind m f).
Proof.
  intros Hm Hf w. unfold bind. specialize (Hm w).
  destruct (m w) as [a w1]. simpl in *.
  eapply R_trans; [exact Hm | apply Hf].
Qed.

Lemma respects_call {A} cls e (o : Q -> list (@Event F) -> A) :
  steps env R cls -> cls e = true -> respects R (call env e o).
Proof. intros H He w. apply (H e w He). Qed.

Lemma respects_emit cls e :
  steps env R cls -> cls e = true -> respects R (@emit F e).
Proof. intros H He w. apply (H e w He). Qed.

Lemma steps_sub cls cls' :
  steps env R cls' -> (forall e, cls e = true -> cls' e = true) ->
  steps env R cls.
Proof. intros H Hsub e w He. apply H, Hsub, He. Qed.

Ltac respect H :=
  repeat match goal with
         | |- respects _ (bind _ _) => apply respects_bind; [|intros]
         | |- respects _ (ret _) => apply respects_ret
         | |- respects _ (call _ _ _) => apply (respects_call _ _ _ H); reflexivity
         | |- respects _ (emit _) => apply (respects_emit _ _ H); reflexivity
         | |- respects _ (log _) => apply (respects_emit _ _ H); reflexivity
         | |- respects _ (match ?x with _ => _ end) => destruct x
         | |- respects _ (if ?b then _ else _) => destruct b
         end.

Lemma analyze_text_respects prompt context :
  steps env R is_chat -> respects R (analyze_text env prompt context).
Proof. intros H. unfold analyze_text. respect H. Qed.

Lemma fetch_quiz_page_respects url :
  steps env R is_browser -> respects R (fetch_quiz_page env url).
Proof. intros H. unfold fetch_quiz_page. respect H. Qed.

Lemma parse_quiz_task_respects qd :
  steps env R is_chat -> respects R (parse_quiz_task env qd).
Proof.
  intros H. unfold parse_quiz_task. cbv zeta. respect H.
  apply analyze_text_respects, H.
Qed.

Lemma download_all_respects urls :
  steps env R is_download -> respects R (download_all env urls).
Proof.
  intros H. induction urls as [|u urls IH]; simpl; respect H; auto.
  unfold download_file. cbv zeta. respect H.
Qed.

Lemma extract_all_respects path pages : forall i,
  steps env R is_page_access -> respects R (@extract_all F path i pages).
Proof.
  induction pages as [|p pages IH]; intros i H; simpl; respect H. auto.
Qed.

Lemma pdf_text_respects path pages n :
  steps env R is_page_access -> respects R (@pdf_text F path pages n).
Proof.
  intros H. unfold pdf_text. cbv zeta. respect H;
    apply extract_all_respects, H.
Qed.

Lemma solve_math_problem_respects problem data :
  steps env R is_chat -> respects R (solve_math_problem env problem data).
Proof.
  intros H. unfold solve_math_problem. cbv zeta. respect H.
  apply analyze_text_respects, H.
Qed.

Lemma solve_task_respects ti :
  steps env R is_solver_event -> respects R (solve_task env ti).
Proof.
  intros H.
  assert (Hchat : steps env R is_chat)
    by (apply (steps_sub _ _ H); intros []; simpl; congruence).
  assert (Hdown : steps env R is_download)
    by (apply (steps_sub _ _ H); intros []; simpl; congruence).
  assert (Hpage : steps env R is_page_access)
    by (apply (steps_sub _ _ H); intros []; simpl; congruence).
  unfold solve_task, PDFProcessingHandler_handle, DataAnalysisHandler_handle,
    GeneralTaskHandler_handle. cbv zeta. respect H;
    first [ apply download_all_respects, Hdown
          | apply pdf_text_respects, Hpage
          | apply analyze_text_respects, Hchat
          | apply solve_math_problem_respects, Hchat ].
Qed.

Lemma submit_answer_respects su email secret url a :
  steps env R is_log ->
  (forall w, R w (pass env (record (EvPost su (mkPayload email secret url a)) w))) ->
  respects R (submit_answer env settings su email secret url a).
Proof.
  intros H Hpost. unfold submit_answer. cbv zeta.
  destruct (_ <? _)%Z; respect H.
  intros w. apply Hpost.
Qed.

Lemma solve_single_quiz_respects url email secret tr :
  steps env R (fun e => negb (is_post e)) ->
  (forall su a w,
      R w (pass env (record (EvPost su (mkPayload email secret url a)) w))) ->
  respects R (solve_single_quiz env settings url email secret tr).
Proof.
  intros H Hpost.
  assert (Hlog : steps env R is_log)
    by (apply (steps_sub _ _ H); intros []; simpl; congruence).
  unfold solve_single_quiz. respect H.
  - apply fetch_quiz_page_respects.
    apply (steps_sub _ _ H); intros []; simpl; congruence.
  - apply parse_quiz_task_respects.
    apply (steps_sub _ _ H); intros []; simpl; congruence.
  - apply solve_task_respects.
    apply (steps_sub _ _ H); intros []; simpl; congruence.
  - apply submit_answer_respects; auto.
Qed.

(** The relation is also kept when time passes and when the timer is
    set. *)
Hypothesis R_pass : forall w, R w (pass env w).
Hypothesis R_timer : forall w tm, R w (with_timer tm w).

Lemma time_time_respects : respects R (time_time env).
Proof. intros w. apply R_pass. Qed.

Lemma elapsed_respects : respects R (elapsed env).
Proof.
  intros w. unfold elapsed.
  destruct (start_time (timer w)); [|apply R_refl].
  destruct (end_time (timer w)) as [e|]; [destruct (float_truthy e)|]; simpl;
    first [apply R_refl | apply R_pass].
Qed.

Lemma is_timeout_respects : respects R (is_timeout env).
Proof.
  unfold is_timeout. apply respects_bind; [apply elapsed_respects|].
  intros e w. apply R_refl.
Qed.

Lemma remaining_respects : respects R (remaining env).
Proof.
  unfold remaining. apply respects_bind; [apply elapsed_respects|].
  intros e w. apply R_refl.
Qed.

Lemma set_timer_respects f : respects R (@set_timer F f).
Proof. intros w. apply (R_timer w (f (timer w))). Qed.

Lemma chain_loop_respects fuel email secret :
  steps env R (fun e => negb (is_post e)) ->
  (forall su url a w,
      R w (pass env (record (EvPost su (mkPayload email secret url a)) w))) ->
  forall url count,
    respects R (chain_loop env settings fuel email secret url count).
Proof.
  intros H Hpost. induction fuel as [|fuel IH]; intros url count; simpl.
  - apply respects_ret.
  - respect H; auto;
      first [ apply is_timeout_respects | apply remaining_respects
            | apply solve_single_quiz_respects; auto ].
Qed.

Lemma solve_quiz_chain_respects fuel url email secret :
  steps env R (fun e => negb (is_post e)) ->
  (forall su url a w,
      R w (pass env (record (EvPost su (mkPayload email secret url a)) w))) ->
  respects R (solve_quiz_chain env settings fuel url email secret).
Proof.
  intros H Hpost. unfold solve_quiz_chain, chain_end, Timer_init, Timer_enter,
    Timer_exit.
  respect H;
    first [ apply set_timer_respects | apply time_time_respects
          | apply is_timeout_respects | apply chain_loop_respects; auto ].
Qed.

End Respect.

(** ** What holds of a whole chain *)

Section ChainInvariants.

Context {F : Type}.
Variable env : @Collaborators F.
Variable settings : Settings.t.

Lemma grows_by_refl (P : @Event F -> Prop) w : grows_by P w w.
Proof. exists []. auto. Qed.

Lemma grows_by_trans (P : @Event F -> Prop) a b c :
  grows_by P a b -> grows_by P b c -> grows_by P a c.
Proof.
  intros (n1 & E1 & F1) (n2 & E2 & F2). exists (n2 ++ n1)%list.
  rewrite E2, E1, app_assoc. split; [reflexivity | apply Forall_app; auto].
Qed.

Lemma grows_by_steps (P : @Event F -> Prop) cls :
  (forall e, cls e = true -> P e) -> steps env (grows_by P) cls.
Proof.
  intros H e w He. split; exists [e]; simpl; auto.
Qed.

Lemma grows_by_pass (P : @Event F -> Prop) w : grows_by P w (pass env w).
Proof. exists []. auto. Qed.

Lemma grows_by_timer (P : @Event F -> Prop) w tm : grows_by P w (with_timer tm w).
Proof. exists []. auto. Qed.

(** X4. Credentials pass through unchanged: every submission made by a
    chain, whatever the pages, the model and the checker do, carries the
    email and the secret the chain was started with. *)
Theorem chain_posts_carry_credentials fuel url email secret (w : @World F) :
  exists new,
    trace (snd (solve_quiz_chain env settings fuel url email secret w))
    = (new ++ trace w)%list
    /\ Forall (carries email secret) new.
Proof.
  apply (solve_quiz_chain_respects env settings (grows_by (carries email secret))).
  - apply grows_by_refl.
  - apply grows_by_trans.
  - apply grows_by_pass.
  - apply grows_by_timer.
  - apply grows_by_steps. intros e He su p ->. discriminate He.
  - intros su u a w0. exists [EvPost su (mkPayload email secret u a)].
    split; [reflexivity|]. constructor; [|constructor].
    intros su' p' E. injection E as _ <-. auto.
Qed.

(** *** Time *)

Hypothesis clock : monotone_clock env.

Lemma not_before_refl (w : @World F) : not_before w w.
Proof. unfold not_before. lra. Qed.

Lemma not_before_trans (a b c : @World F) :
  not_before a b -> not_before b c -> not_before a c.
Proof. unfold not_before. lra. Qed.

Lemma not_before_pass (w : @World F) : not_before w (pass env w).
Proof.
  unfold not_before. simpl. specialize (clock (now w) (trace w)). lra.
Qed.

Lemma not_before_steps cls : steps env not_before cls.
Proof.
  intros e w _. split.
  - unfold not_before. simpl.
    specialize (clock (now w) (e :: trace w)). lra.
  - unfold not_before. simpl. lra.
Qed.

Lemma not_before_timer (w : @World F) tm : not_before w (with_timer tm w).
Proof. unfold not_before. simpl. lra. Qed.

Ltac not_before_step Hs :=
  match goal with
  | |- respects _ (bind _ _) =>
      apply (respects_bind not_before not_before_trans); [|intros]
  | |- respects _ (ret _) => apply (respects_ret not_before not_before_refl)
  | |- respects _ (call _ _ _) =>
      apply (respects_call env not_before _ _ _ Hs); reflexivity
  | |- respects _ (log _) =>
      apply (respects_emit env not_before _ _ Hs); reflexivity
  | |- respects _ (remaining _) =>
      apply (remaining_respects env not_before not_before_refl
               not_before_trans not_before_pass)
  | |- respects _ (parse_quiz_task _ _) =>
      apply (parse_quiz_task_respects env not_before not_before_refl
               not_before_trans); apply not_before_steps
  | |- respects _ (solve_task _ _) =>
      apply (solve_task_respects env not_before not_before_refl
               not_before_trans); apply not_before_steps
  | |- respects _ (submit_answer _ _ _ _ _ _ _) =>
      apply (submit_answer_respects env settings not_before not_before_refl
               not_before_trans);
      [apply not_before_steps | intros; apply (Hs _ _ eq_refl)]
  | |- respects _ (match ?x with _ => _ end) => destruct x
  | |- respects _ (if ?c then _ else _) => destruct c
  end.

Lemma announce_not_before count url : respects not_before (announce env count url).
Proof.
  pose proof (not_before_steps (fun _ => true)) as Hs.
  unfold announce. repeat not_before_step Hs.
Qed.

Hypothesis sleeps : navigation_sleeps env.

(** An iteration that returns a next URL has navigated, and so has taken
    two seconds or more. *)
Lemma solve_single_quiz_takes_time url email secret tr (w : @World F) :
  fst (solve_single_quiz env settings url email secret tr w) <> None ->
  (now w + 2 <= now (snd (solve_single_quiz env settings url email secret tr w)))%Q.
Proof.
  pose (w0 := pass env (record (EvNavigate url) w)).
  pose (b := navigate_to env (now w) (trace w) url).
  assert (H : exists k : bool -> @M F (option string),
             solve_single_quiz env settings url email secret tr w = k b w0
             /\ fst (k false w0) = None
             /\ respects not_before (k true)).
  { eexists (fun success : bool => bind
      (if negb success then ret None
       else bind (call env EvExtractInstructions (extract_quiz_instructions env)) _) _).
    split; [reflexivity|]. split; [reflexivity|].
    cbv beta iota delta [negb].
    pose proof (not_before_steps (fun _ => true)) as Hs.
    repeat not_before_step Hs. }
  destruct H as (k & E & Hfalse & Htrue). rewrite E.
  unfold b in *. destruct (navigate_to env (now w) (trace w) url) eqn:Hnav.
  - intros _. specialize (Htrue w0). unfold not_before in Htrue.
    assert (now w + 2 <= now w0)%Q.
    { unfold w0. simpl. specialize (sleeps _ _ _ Hnav). lra. }
    lra.
  - intros Hne. contradiction.
Qed.

Lemma expired_when_budget_spent (w : @World F) s :
  start_time (timer w) = Some s -> end_time (timer w) = None ->
  (inject_Z (timeout_seconds (timer w)) - (now w - s) <= 0)%Q ->
  fst (is_timeout env w) = true.
Proof.
  intros Hs He Hb. destruct (is_timeout_value env w) as (E & _ & _).
  rewrite E. apply Qle_bool_iff. unfold elapsed_at. rewrite Hs, He.
  pose proof (not_before_pass w) as Hp. unfold not_before in Hp.
  unfold reading. simpl in *. lra.
Qed.

(** With [k] iterations' worth of budget left, [k + 1] turns of the loop
    are enough to leave it. *)
Lemma chain_loop_terminates email secret : forall k url count (w : @World F) s,
  start_time (timer w) = Some s -> end_time (timer w) = None ->
  (inject_Z (timeout_seconds (timer w)) - (now w - s)
   <= 2 * inject_Z (Z.of_nat k))%Q ->
  exists n, fst (chain_loop env settings (S k) email secret url count w) = Some n.
Proof.
  induction k as [|k IH]; intros url count w s Hs He Hb.
  - destruct (PyStr.truthy url) eqn:Hu.
    + rewrite chain_loop_turn by exact Hu.
      rewrite (expired_when_budget_spent w s Hs He)
        by (change (inject_Z (Z.of_nat 0)) with 0%Q in Hb; lra).
      eexists. reflexivity.
    + simpl. rewrite Hu. eexists. reflexivity.
  - destruct (PyStr.truthy url) eqn:Hu.
    2:{ cbn [chain_loop]. rewrite Hu. eexists. reflexivity. }
    rewrite chain_loop_turn by exact Hu.
    destruct (fst (is_timeout env w)) eqn:Hexp; [eexists; reflexivity|].
    cbv zeta. unfold after_iteration.
    set (w1 := snd (is_timeout env w)).
    set (a := announce env (S count) url w1).
    set (r := solve_single_quiz env settings url email secret (fst a) (snd a)).
    destruct (fst r) as [next|] eqn:Er; [|eexists; reflexivity].
    destruct (PyStr.truthy next) eqn:Hn; [|eexists; reflexivity].
    assert (Htm : timer (snd r) = timer w).
    { unfold r. rewrite oblivious_timer by apply solve_single_quiz_oblivious.
      unfold a. rewrite announce_timer. unfold w1.
      apply (is_timeout_value env w). }
    apply (IH next (S count) (snd r) s).
    + now rewrite Htm.
    + now rewrite Htm.
    + rewrite Htm.
      assert (H1 : (now w <= now w1)%Q).
      { apply (is_timeout_respects env not_before not_before_refl
                 not_before_trans not_before_pass w). }
      assert (H2 : (now w1 <= now (snd a))%Q) by apply announce_not_before.
      assert (H3 : (now (snd a) + 2 <= now (snd r))%Q).
      { apply solve_single_quiz_takes_time. fold r. congruence. }
      rewrite Nat2Z.inj_succ, <- Z.add_1_r, inject_Z_plus in Hb.
      change (inject_Z 1) with 1%Q in Hb. lra.
Qed.

(** X5. The budget bounds the chain. When the clock does not go back and
    a navigation that succeeds takes its two seconds, the loop of a chain
    is left after at most one turn more than half the budget in seconds:
    with that many turns allowed, [solve_quiz_chain] returns, whatever
    the pages, the model and the checker answer. *)
Theorem chain_terminates_within_budget k url email secret (w : @World F) :
  (Settings.timeout_seconds settings <= 2 * Z.of_nat k)%Z ->
  fst (solve_quiz_chain env settings (S k) url email secret w) = Some tt.
Proof.
  intros Hk. unfold solve_quiz_chain.
  unfold bind at 1. unfold Timer_init at 1, set_timer at 1.
  unfold bind at 1. unfold Timer_enter at 1, bind at 1, time_time at 1, set_timer at 1.
  cbn [fst snd timer timeout_seconds end_time pass now trace].
  match goal with
  | |- context [bind _ _ ?w1] => set (w_head := w1)
  end.
  destruct (chain_loop_terminates email secret k url 0 w_head (now w_head))
    as (n & En); try reflexivity.
  - cbn [w_head timer timeout_seconds now].
    assert (H : (inject_Z (Settings.timeout_seconds settings)
                 <= inject_Z (2 * Z.of_nat k))%Q) by (rewrite <- Zle_Qle; exact Hk).
    rewrite inject_Z_mult in H. change (inject_Z 2) with 2%Q in H. lra.
  - unfold bind at 1.
    destruct (chain_loop env settings (S k) email secret url 0 w_head) as [[n'|] w2];
      [|discriminate En].
    unfold bind, ret. destruct (chain_end env n' w2). reflexivity.
Qed.

End ChainInvariants.

(** ** Counting what a chain does *)

Section Counting.

Context {F : Type}.
Variable env : @Collaborators F.
Variable settings : Settings.t.

Lemma weight_app (f : @Event F -> nat) a b :
  weight f (a ++ b) = weight f a + weight f b.
Proof. unfold weight. now rewrite map_app, list_sum_app. Qed.

Lemma within_ret {A} (f : @Event F -> nat) k (a : A) : within f k (ret a).
Proof. intros w. exists []. split; [reflexivity | unfold weight; simpl; lia]. Qed.

Lemma within_weaken {A} (f : @Event F -> nat) k k' (m : @M F A) :
  k <= k' -> within f k m -> within f k' m.
Proof.
  intros Hk Hm w. destruct (Hm w) as (new & E & H). exists new. split; [exact E | lia].
Qed.

Lemma within_bind {A B} (f : @Event F -> nat) k k1 k2
      (m : @M F A) (g : A -> @M F B) :
  k1 + k2 <= k ->
  within f k1 m -> (forall a, within f k2 (g a)) -> within f k (bind m g).
Proof.
  intros Hk Hm Hg w. unfold bind.
  destruct (Hm w) as (n1 & E1 & H1). destruct (m w) as [a w1]. simpl in *.
  destruct (Hg a w1) as (n2 & E2 & H2).
  exists (n2 ++ n1)%list. rewrite E2, E1, app_assoc, weight_app.
  split; [reflexivity | lia].
Qed.

Lemma within_call {A} (f : @Event F -> nat) k e (o : Q -> list (@Event F) -> A) :
  f e <= k -> within f k (call env e o).
Proof. intros H w. exists [e]. simpl. split; [reflexivity|]. unfold weight. simpl. lia. Qed.

Lemma within_log (f : @Event F -> nat) k m :
  f (EvLog m) <= k -> within f k (log m).
Proof. intros H w. exists [EvLog m]. simpl. split; [reflexivity|]. unfold weight. simpl. lia. Qed.

(** A computation that only adds events of weight zero. *)
Lemma within_zero {A} (f : @Event F -> nat) (m : @M F A) :
  respects (grows_by (fun e => f e = 0)) m -> within f 0 m.
Proof.
  intros Hm w. destruct (Hm w) as (new & E & HF). exists new. split; [exact E|].
  clear E. unfold weight. induction HF as [|e l He _ IH]; simpl; [lia|].
  rewrite He. exact IH.
Qed.

Lemma zero_steps (f : @Event F -> nat) cls :
  (forall e, cls e = true -> f e = 0) ->
  steps env (grows_by (fun e => f e = 0)) cls.
Proof. apply grows_by_steps. Qed.

(** The weight of an iteration, from the weights of its stages, for a
    weight that ignores the log lines of [solve_single_quiz]. *)
Lemma solve_single_quiz_within (f : @Event F -> nat) a b c
      url email secret tr :
  (forall m, (forall n u, m <> LogSolvingQuiz n u) -> f (EvLog m) = 0) ->
  within f 0 (fetch_quiz_page env url) ->
  (forall qd, within f a (parse_quiz_task env qd)) ->
  (forall ti, within f b (solve_task env ti)) ->
  (forall su answer,
      within f c (submit_answer env settings su email secret url answer)) ->
  within f (a + b + c) (solve_single_quiz env settings url email secret tr).
Proof.
  intros Hlog Hf Hp Hs Hsub. unfold solve_single_quiz.
  assert (L : forall m k, (forall n u, m <> LogSolvingQuiz n u) ->
                          within f k (log m)).
  { intros m k Hm. apply within_log. rewrite (Hlog m Hm). lia. }
  apply (within_bind f _ 0 (a + b + c)); [lia | exact Hf |].
  intros [qd|].
  2:{ apply (within_bind f _ 0 0); [lia | apply L; discriminate |].
      intros; apply within_ret. }
  apply (within_bind f _ a (b + c)); [lia | apply Hp |].
  intros [ti|].
  2:{ apply (within_bind f _ 0 0); [lia | apply L; discriminate |].
      intros; apply within_ret. }
  apply (within_bind f _ 0 (b + c)); [lia | apply L; discriminate |]. intros _.
  apply (within_bind f _ b c); [lia | apply Hs |].
  intros [answer|].
  2:{ apply (within_bind f _ 0 0); [lia | apply L; discriminate |].
      intros; apply within_ret. }
  apply (within_bind f _ 0 c); [lia | apply L; discriminate |]. intros _.
  assert (N : within f c (bind (log LogNoSubmitUrl) (fun _ => @ret F _ (@None string)))).
  { apply (within_bind f _ 0 0); [lia | apply L; discriminate |].
    intros; apply within_ret. }
  destruct (submit_url ti) as [su|]; [|exact N].
  destruct (negb (PyStr.truthy su)); [exact N|].
  apply (within_bind f _ c 0); [lia | apply Hsub |].
  intros [response|]; [|apply within_ret].
  apply (within_bind f _ 0 0); [lia | | intros; apply within_ret].
  destruct (SubmitResponse.correct response); apply L; discriminate.
Qed.

Lemma analyze_text_one_chat prompt context :
  within chat_w 1 (analyze_text env prompt context).
Proof. unfold analyze_text. cbv zeta. apply within_call. simpl. lia. Qed.

Lemma zero_chat_refl (w : @World F) : grows_by (fun e => chat_w e = 0) w w.
Proof. apply grows_by_refl. Qed.

(** [solve_task] asks the model at most once. *)
Lemma solve_task_one_chat ti : within chat_w 1 (solve_task env ti).
Proof.
  pose proof (grows_by_refl (fun e : @Event F => chat_w e = 0)) as Rr.
  pose proof (grows_by_trans (fun e : @Event F => chat_w e = 0)) as Rt.
  unfold solve_task.
  apply (within_bind chat_w _ 0 1); [lia | |].
  { apply within_zero. apply (download_all_respects env _ Rr Rt).
    apply zero_steps. intros []; simpl; congruence. }
  intros files. destruct (dispatch _ _) as [[pdf_file page_num|data data_type|]|];
    [| | |apply within_ret].
  - unfold PDFProcessingHandler_handle.
    apply (within_bind chat_w _ 0 1); [lia | apply within_call; simpl; lia |].
    intros [pages|]; [|apply within_ret].
    apply (within_bind chat_w _ 0 1); [lia | |].
    { apply within_zero. apply (pdf_text_respects env _ Rr Rt).
      apply zero_steps. intros []; simpl; congruence. }
    intros [text|]; [|apply within_ret].
    apply (within_bind chat_w _ 1 0); [lia | apply analyze_text_one_chat |].
    intros; apply within_ret.
  - unfold DataAnalysisHandler_handle.
    apply (within_bind chat_w _ 0 1); [lia | |].
    { destruct (String.eqb data_type "csv");
        [apply within_call; simpl; lia|].
      destruct (String.eqb data_type "json"); apply within_ret. }
    intros [data_str|]; [|apply within_ret].
    unfold solve_math_problem. cbv zeta.
    apply (within_bind chat_w _ 1 0); [lia | apply analyze_text_one_chat |].
    intros [r|]; [destruct (PyStr.truthy r)|]; apply within_ret.
  - unfold GeneralTaskHandler_handle. cbv zeta.
    apply (within_bind chat_w _ 1 0); [lia | apply analyze_text_one_chat |].
    intros; apply within_ret.
Qed.

Lemma submit_answer_within (f : @Event F -> nat) c su email secret url a :
  (forall m, (forall n u, m <> LogSolvingQuiz n u) -> f (EvLog m) = 0) ->
  (forall p, f (EvPost su p) <= c) ->
  within f c (submit_answer env settings su email secret url a).
Proof.
  intros Hlog Hpost.
  assert (L : forall m k, (forall n u, m <> LogSolvingQuiz n u) ->
                          within f k (log m)).
  { intros m k Hm. apply within_log. rewrite (Hlog m Hm). lia. }
  unfold submit_answer. cbv zeta. destruct (_ <? _)%Z.
  - apply (within_bind f _ 0 0); [lia | apply L; discriminate |].
    intros; apply within_ret.
  - apply (within_bind f _ 0 c); [lia | apply L; discriminate |]. intros _.
    apply (within_bind f _ 0 c); [lia | apply L; discriminate |]. intros _.
    apply (within_bind f _ c 0); [lia | apply within_call; apply Hpost |].
    intros [|status verdict].
    + apply (within_bind f _ 0 0); [lia | apply L; discriminate |].
      intros; apply within_ret.
    + destruct (status =? 200)%Z; [destruct verdict|];
        try apply within_ret;
        (apply (within_bind f _ 0 0); [lia | apply L; discriminate |];
         intros; apply within_ret).
Qed.

Lemma stage_zero (f : @Event F -> nat) url :
  (forall e, is_browser e = true -> f e = 0) ->
  (forall e, is_solver_event e = true -> f e = 0) ->
  within f 0 (fetch_quiz_page env url)
  /\ (forall qd, within f 0 (parse_quiz_task env qd))
  /\ (forall ti, within f 0 (solve_task env ti)).
Proof.
  intros Hb Hs.
  pose proof (grows_by_refl (fun e : @Event F => f e = 0)) as Rr.
  pose proof (grows_by_trans (fun e : @Event F => f e = 0)) as Rt.
  split; [|split]; intros; apply within_zero.
  - apply (fetch_quiz_page_respects env _ Rr Rt). apply zero_steps, Hb.
  - apply (parse_quiz_task_respects env _ Rr Rt). apply zero_steps.
    intros e He. apply Hs. destruct e; simpl in *; congruence.
  - apply (solve_task_respects env _ Rr Rt). apply zero_steps, Hs.
Qed.

(** The three counts of one iteration, each on its own. *)
Lemma solve_single_quiz_bounds url email secret tr :
  within chat_w 2 (solve_single_quiz env settings url email secret tr)
  /\ within post_w 1 (solve_single_quiz env settings url email secret tr)
  /\ within solving_w 0 (solve_single_quiz env settings url email secret tr).
Proof.
  split; [|split].
  - apply (solve_single_quiz_within chat_w 1 1 0).
    + intros m _. reflexivity.
    + apply within_zero.
      apply (fetch_quiz_page_respects env _ (grows_by_refl _) (grows_by_trans _)).
      apply zero_steps. intros []; simpl; congruence.
    + intros qd. unfold parse_quiz_task. cbv zeta.
      apply (within_bind chat_w _ 1 0); [lia | apply analyze_text_one_chat |].
      intros; apply within_ret.
    + apply solve_task_one_chat.
    + intros su answer. apply submit_answer_within.
      * intros m _. reflexivity.
      * intros p. simpl. lia.
  - destruct (stage_zero post_w url) as (Hf & Hp & Hs);
      try (intros []; simpl; congruence).
    apply (solve_single_quiz_within post_w 0 0 1);
      [intros m _; reflexivity | exact Hf | exact Hp | exact Hs |].
    intros su answer. apply submit_answer_within.
    + intros m _. reflexivity.
    + intros p. simpl. lia.
  - destruct (stage_zero solving_w url) as (Hf & Hp & Hs);
      try (intros []; simpl; congruence).
    assert (Hlog : forall m : @LogMsg F,
               (forall n u, m <> LogSolvingQuiz n u) -> solving_w (EvLog m) = 0).
    { intros m Hm. destruct m; try reflexivity. exfalso. eapply Hm. reflexivity. }
    apply (solve_single_quiz_within solving_w 0 0 0);
      [exact Hlog | exact Hf | exact Hp | exact Hs |].
    intros su answer. apply submit_answer_within; [exact Hlog|].
    intros p. simpl. lia.
Qed.

(** X6. One iteration asks the language model at most twice (once to
    restate the task, at most once to solve it), posts at most one
    answer, and does not start another quiz: what it adds to the history
    has at most two calls of the model, at most one POST and no
    "Solving quiz" line. *)
Theorem iteration_costs url email secret tr (w : @World F) :
  exists new,
    trace (snd (solve_single_quiz env settings url email secret tr w))
    = (new ++ trace w)%list
    /\ weight chat_w new <= 2
    /\ weight post_w new <= 1
    /\ weight solving_w new = 0.
Proof.
  destruct (solve_single_quiz_bounds url email secret tr) as (Hc & Hp & Hs).
  destruct (Hc w) as (nc & Ec & Wc).
  destruct (Hp w) as (np & Ep & Wp).
  destruct (Hs w) as (ns & Es & Ws).
  assert (np = nc) by (eapply app_inv_tail; rewrite <- Ep; exact Ec).
  assert (ns = nc) by (eapply app_inv_tail; rewrite <- Es; exact Ec).
  subst np ns. exists nc.
  split; [exact Ec|]. split; [exact Wc|]. split; [exact Wp|]. lia.
Qed.

(** X7. The number a chain reports is the number of quizzes it started,
    in order and whether or not they were solved: each turn of the loop
    writes one "Solving quiz" line, and the count at the end is the
    count at the start plus the number of those lines. It is at most the
    number of turns allowed, and over the whole loop there is at most
    one POST and at most two calls of the model for each quiz started. *)
Theorem chain_accounting fuel email secret : forall url count (w w' : @World F) n,
  chain_loop env settings fuel email secret url count w = (Some n, w') ->
  exists new,
    trace w' = (new ++ trace w)%list
    /\ count + weight solving_w new = n
    /\ n <= count + fuel
    /\ weight post_w new <= n - count
    /\ weight chat_w new <= 2 * (n - count).
Proof.
  induction fuel as [|fuel IH]; intros url count w w' n E.
  - discriminate E.
  - destruct (PyStr.truthy url) eqn:Hu.
    2:{ cbn [chain_loop] in E. rewrite Hu in E. injection E as <- <-.
        exists []. simpl. unfold weight. simpl. repeat split; lia. }
    rewrite chain_loop_turn in E by exact Hu.
    pose proof (is_timeout_value env w) as (_ & _ & Htr).
    destruct (fst (is_timeout env w)).
    { injection E as <- <-. exists []. rewrite Htr. unfold weight. simpl.
      repeat split; lia. }
    cbv zeta in E. unfold after_iteration in E.
    destruct (announce_trace env (S count) url (snd (is_timeout env w))) as (q & Ea).
    set (a := announce env (S count) url (snd (is_timeout env w))) in *.
    destruct (solve_single_quiz_bounds url email secret (fst a)) as (Hc & Hp & Hs).
    destruct (Hc (snd a)) as (nc & Ec & Wc).
    destruct (Hp (snd a)) as (np & Ep & Wp).
    destruct (Hs (snd a)) as (ns & Es & Ws).
    set (r := solve_single_quiz env settings url email secret (fst a) (snd a)) in *.
    assert (np = nc) by (eapply app_inv_tail; rewrite <- Ep; exact Ec).
    assert (ns = nc) by (eapply app_inv_tail; rewrite <- Es; exact Ec).
    subst np ns.
    set (head := [@EvLog F (LogTimeRemaining q); EvLog (LogSolvingQuiz (S count) url)]).
    assert (Er : trace (snd r) = ((nc ++ head) ++ trace w)%list).
    { rewrite Ec, Ea, Htr, <- app_assoc. reflexivity. }
    assert (Wh : weight solving_w head = 1 /\ weight post_w head = 0
                 /\ weight chat_w head = 0) by (unfold weight; simpl; auto).
    destruct Wh as (Wh1 & Wh2 & Wh3).
    assert (Done : forall x,
               x = (Some (S count), record (EvLog LogChainCompleted) (snd r)) ->
               x = (Some n, w') ->
               exists new,
                 trace w' = (new ++ trace w)%list
                 /\ count + weight solving_w new = n
                 /\ n <= count + S fuel
                 /\ weight post_w new <= n - count
                 /\ weight chat_w new <= 2 * (n - count)).
    { intros x -> Ex. injection Ex as <- <-.
      exists (EvLog LogChainCompleted :: nc ++ head)%list.
      split; [simpl; rewrite Er; reflexivity|].
      change (EvLog LogChainCompleted :: nc ++ head)%list
        with ([EvLog LogChainCompleted] ++ nc ++ head)%list.
      assert (Wl : weight solving_w [@EvLog F LogChainCompleted] = 0
                   /\ weight post_w [@EvLog F LogChainCompleted] = 0
                   /\ weight chat_w [@EvLog F LogChainCompleted] = 0)
        by (repeat split; reflexivity).
      destruct Wl as (Wl1 & Wl2 & Wl3).
      rewrite !weight_app, Wh1, Wh2, Wh3, Wl1, Wl2, Wl3.
      repeat split; lia. }
    destruct (fst r) as [next|]; [|eapply Done; [reflexivity | exact E]].
    destruct (PyStr.truthy next); [|eapply Done; [reflexivity | exact E]].
    destruct (IH next (S count) (snd r) w' n E) as (new & En & W1 & W2 & W3 & W4).
    exists (new ++ nc ++ head)%list.
    split; [rewrite En, Er, <- !app_assoc; reflexivity|].
    rewrite !weight_app, Wh1, Wh2, Wh3. repeat split; lia.
Qed.

End Counting.

(** ** The stages of an iteration *)

Lemma substring_prefix_length n : forall s,
  String.length (String.substring 0 n s) <= n
  /\ exists rest, s = (String.substring 0 n s ++ rest)%string.
Proof.
  induction n as [|n IH]; intros s.
  - destruct s; simpl; (split; [lia|]); eexists; reflexivity.
  - destruct s as [|c s]; simpl.
    + split; [lia|]. exists EmptyString. reflexivity.
    + destruct (IH s) as (L & rest & E). split; [lia|].
      exists rest. now rewrite <- E.
Qed.

Lemma substring_short n : forall s,
  String.length s <= n -> String.substring 0 n s = s.
Proof.
  induction n as [|n IH]; intros s H.
  - destruct s; [reflexivity | simpl in H; lia].
  - destruct s as [|c s]; [reflexivity|]. simpl in *. rewrite IH; [reflexivity | lia].
Qed.

Lemma lstrip_blank s : all_in PyStr.isspace s = true -> PyStr.lstrip s = EmptyString.
Proof.
  induction s as [|c s IH]; simpl; [reflexivity|].
  intros H. apply andb_true_iff in H as [Hc Hs]. now rewrite Hc, IH.
Qed.


Section StageFacts.

Context {F : Type}.
Variable env : @Collaborators F.
Variable settings : Settings.t.

(** X9. [fetch_quiz_page] stops at the first thing that fails: when the
    navigation fails nothing else is asked of the browser, and when there
    are no instructions the page content is not read. When it succeeds,
    the three calls were made in order, the instructions are not empty
    and the URL of the result is the URL asked for. *)
Theorem fetch_quiz_page_outcomes url (w : @World F) :
  let r := fetch_quiz_page env url w in
  match fst r with
  | Some qd =>
      qd_url qd = url
      /\ PyStr.truthy (qd_content qd) = true
      /\ navigate_to env (now w) (trace w) url = true
      /\ trace (snd r)
         = EvPageContent :: EvExtractInstructions :: EvNavigate url :: trace w
  | None =>
      if navigate_to env (now w) (trace w) url
      then trace (snd r) = EvExtractInstructions :: EvNavigate url :: trace w
      else trace (snd r) = EvNavigate url :: trace w
  end.
Proof.
  unfold fetch_quiz_page, bind, call, ret. cbn [fst snd].
  destruct (navigate_to env (now w) (trace w) url); cbn [negb]; [|reflexivity].
  destruct (extract_quiz_instructions env _ _) as [content|]; [|reflexivity].
  destruct (PyStr.truthy content) eqn:Ht; cbn [negb fst snd]; [|reflexivity].
  repeat split; auto.
Qed.

Lemma download_file_value url (w : @World F) :
  download_file env url w
  = ((if browser_download env (now w) (trace w) url (file_path_of url)
      then Some (file_path_of url) else None),
     pass env (record (download_event url) w)).
Proof.
  unfold download_file, bind, call, ret, download_event, file_path_of. cbv zeta.
  destruct (browser_download env _ _ _ _); reflexivity.
Qed.

(** X10. The download loop tries every file URL once, in document order,
    and does nothing else. The files it returns are saved copies of URLs
    of the list. When the outcome of a download depends on the URL and
    the path only, the files returned are the paths of the URLs whose
    download succeeds, in order: a download that fails leaves nothing in
    the list, and with no failure every URL has its file. *)
Theorem download_all_spec urls : forall (w : @World F),
  let r := download_all env urls w in
  trace (snd r) = (rev (map download_event urls) ++ trace w)%list
  /\ List.length (fst r) <= List.length urls
  /\ (forall f, In f (fst r) -> exists u, In u urls /\ f = file_path_of u)
  /\ (forall ok : string -> string -> bool,
         (forall t past u p, browser_download env t past u p = ok u p) ->
         fst r = map file_path_of
                   (filter (fun u => ok u (file_path_of u)) urls)).
Proof.
  induction urls as [|u urls IH]; intros w.
  - simpl. repeat split; auto. intros f [].
  - cbn [download_all]. unfold bind. rewrite download_file_value.
    set (w1 := pass env (record (download_event u) w)).
    destruct (IH w1) as (Htr & Hlen & Hin & Hall).
    destruct (download_all env urls w1) as [files w2]. cbn [fst snd ret] in *.
    split; [|split; [|split]].
    + rewrite Htr. simpl. rewrite <- app_assoc. reflexivity.
    + destruct (browser_download env _ _ _ _); simpl; lia.
    + intros f Hf.
      destruct (browser_download env _ _ _ _); simpl in Hf.
      * destruct Hf as [<- | Hf]; [exists u; simpl; auto|].
        destruct (Hin f Hf) as (u' & Hu' & ->). exists u'. simpl. auto.
      * destruct (Hin f Hf) as (u' & Hu' & ->). exists u'. simpl. auto.
    + intros ok Hok. rewrite Hok. cbn [filter].
      rewrite (Hall ok Hok). destruct (ok u (file_path_of u)); reflexivity.
Qed.

(** X11. Without a page number the PDF handler reads the pages once each,
    from the first, in order. When the text of every page can be
    extracted, the model is asked once, with the texts joined by newlines
    as the content of the PDF, and its reply is the answer; when one page
    fails, the pages after it are not read, the model is not asked and
    the handler gives no answer. *)
Theorem pdf_pages_are_read_in_order description path texts rest (w : @World F) :
  let accesses n := rev (map (@EvPdfPage F path) (page_indices 0%Z n)) in
  let opened := pass env (record (EvPdfOpen path) w) in
  (pdf_pages env (now w) (trace w) path = Some (map Some texts) ->
   let read :=
     mkWorld (now opened) (timer opened)
       (accesses (List.length texts) ++ trace opened)%list in
   let messages :=
     asked_with_context ("PDF Content:" ++ nl ++ PyStr.join nl texts)
       description in
   PDFProcessingHandler_handle env description path None w
   = (option_map AStr (chat_completion env (now read) (trace read) messages),
      pass env (record (EvChat messages) read)))
  /\ (pdf_pages env (now w) (trace w) path
      = Some (map Some texts ++ None :: rest)%list ->
      PDFProcessingHandler_handle env description path None w
      = (None,
         mkWorld (now opened) (timer opened)
           (accesses (S (List.length texts)) ++ trace opened)%list))
  /\ pdf_text path (map Some texts) None w
     = (Some (PyStr.join nl texts),
        mkWorld (now w) (timer w)
          (accesses (List.length texts) ++ trace w)%list)
  /\ pdf_text path (map Some texts ++ None :: rest)%list None w
     = (None,
        mkWorld (now w) (timer w)
          (accesses (S (List.length texts)) ++ trace w)%list).
Proof.
  intros accesses opened. split; [|split; [|split]].
  - intros Hp. apply pdf_handler_all_pages; [exact Hp | left; reflexivity].
  - intros Hp. unfold PDFProcessingHandler_handle, bind, call.
    rewrite Hp. unfold pdf_text, bind. rewrite extract_all_fails. reflexivity.
  - unfold pdf_text, bind. rewrite extract_all_ok. reflexivity.
  - unfold pdf_text, bind. rewrite extract_all_fails. reflexivity.
Qed.

Lemma parse_number_text r s :
  parse_number env r = AStr s -> s = PyStr.strip r.
Proof.
  unfold parse_number. cbv zeta.
  destruct (PyStr.contains "." _).
  - destruct (py_float env _); [discriminate | congruence].
  - destruct (PyStr.int _); [discriminate | congruence].
Qed.

Lemma parse_number_blank r :
  all_in PyStr.isspace r = true -> parse_number env r = AStr "".
Proof.
  intros H. unfold parse_number, PyStr.strip. cbv zeta.
  rewrite (lstrip_blank r H). reflexivity.
Qed.

(** X12. [solve_math_problem] gives no answer only when the model gives no
    reply or an empty one. A reply of nothing but white space is not a
    failure: the answer is the empty string. Whenever the answer is a
    string, it is the reply with the white space around it removed. *)
Theorem solve_math_problem_answers problem data (w : @World F) :
  exists messages,
    let reply := chat_completion env (now w) (trace w) messages in
    let answer := fst (solve_math_problem env problem data w) in
    trace (snd (solve_math_problem env problem data w))
    = EvChat messages :: trace w
    /\ (answer = None <-> reply = None \/ reply = Some "")
    /\ (forall r,
           reply = Some r -> r <> "" -> all_in PyStr.isspace r = true ->
           answer = Some (AStr ""))
    /\ (forall r s,
           reply = Some r -> answer = Some (AStr s) -> s = PyStr.strip r).
Proof.
  unfold solve_math_problem, bind. cbv zeta.
  match goal with
  | |- context [analyze_text env ?p None w] => set (prompt := p)
  end.
  exists [("user", prompt)]. unfold analyze_text, call. cbn [fst snd].
  destruct (chat_completion env (now w) (trace w) [("user", prompt)]) as [r|].
  - destruct r as [|c r']; cbn [PyStr.truthy ret fst snd].
    + split; [reflexivity|]. split; [split; auto|]. split.
      * intros r0 E Hne. injection E as <-. congruence.
      * intros r0 s _ E. discriminate E.
    + split; [reflexivity|]. split.
      * split; [discriminate|]. intros [H|H]; discriminate H.
      * split.
        -- intros r0 E _ Hb. injection E as <-. now rewrite parse_number_blank.
        -- intros r0 s E Ha. injection E as <-. injection Ha as Ha.
           now apply parse_number_text.
  - cbn [ret fst snd]. split; [reflexivity|]. split; [split; auto|]. split.
    + intros r0 E. discriminate E.
    + intros r0 s E. discriminate E.
Qed.

End StageFacts.

(** ** Edges: the scraping handler, the stopped timer, the empty chain *)

Section EdgeFacts.

Context {F : Type}.
Variable env : @Collaborators F.
Variable settings : Settings.t.

(** X14. The scraping handler does nothing at all without a URL, with
    an empty URL, or when the browser does not start. Otherwise it goes
    to the page, reads its content and asks the model once, whether the
    navigation succeeded or not: the model is given the first 10000
    characters of the content read (all of it when it is shorter), and
    its reply is the answer. *)
Theorem scraping_handler_bounds_context
        (browser_start : Q -> list (@Event F) -> bool)
        description url (w : @World F) :
  let handle := DataScrapingHandler_handle env browser_start description in
  handle None w = (None, w)
  /\ handle (Some "") w = (None, w)
  /\ (browser_start (now w) (trace w) = false -> handle (Some url) w = (None, w))
  /\ (PyStr.truthy url = true -> browser_start (now w) (trace w) = true ->
      let visited := pass env (record (EvNavigate url) w) in
      let page := get_page_content env (now visited) (trace visited) in
      let read := pass env (record EvPageContent visited) in
      let shown := String.substring 0 10000 page in
      let messages :=
        asked_with_context ("HTML Content:" ++ nl ++ shown) description in
      handle (Some url) w
      = (option_map AStr (chat_completion env (now read) (trace read) messages),
         pass env (record (EvChat messages) read))
      /\ String.length shown <= 10000
      /\ (exists rest, page = shown ++ rest)
      /\ (String.length page <= 10000 -> shown = page)).
Proof.
  intros handle. unfold handle, DataScrapingHandler_handle.
  split; [reflexivity|]. split; [reflexivity|]. split.
  - intros Hb. destruct (PyStr.truthy url); cbn [negb]; [|reflexivity].
    cbv beta. now rewrite Hb.
  - intros Hu Hb. rewrite Hu. cbn [negb]. cbv beta. rewrite Hb. cbn [negb].
    set (page := get_page_content env _ _).
    destruct (substring_prefix_length 10000 page) as (Hlen & rest & Hpage).
    split; [|split; [exact Hlen|split; [exists rest; exact Hpage|]]].
    + unfold bind, call. rewrite analyze_text_with_context by reflexivity.
      reflexivity.
    + apply substring_short.
Qed.

(** X15. Once [__exit__] has stored a reading of the clock that is not
    zero, [elapsed] is the time between [__enter__] and [__exit__],
    and asking for it no longer reads the clock. A stored reading of zero
    counts as no reading: the clock is read again. *)
Theorem elapsed_is_frozen_after_exit (s : Q) (w w' : @World F) :
  start_time (timer w) = Some s ->
  timer w' = timer (snd (Timer_exit env w)) ->
  (~ (reading env w == 0)%Q -> elapsed env w' = ((reading env w - s)%Q, w'))
  /\ ((reading env w == 0)%Q ->
      elapsed env w' = ((reading env w' - s)%Q, pass env w')).
Proof.
  intros Hs Ht. unfold elapsed. rewrite Ht.
  unfold Timer_exit, bind, time_time, set_timer, reading, time_time.
  cbn [fst snd timer start_time end_time now pass]. rewrite Hs.
  unfold float_truthy. split; intros H.
  - destruct (Qeq_bool _ 0) eqn:E.
    + apply Qeq_bool_iff in E. contradiction.
    + reflexivity.
  - apply Qeq_bool_iff in H. unfold pass in H. cbn [now] in H. rewrite H.
    reflexivity.
Qed.

(** X16. A chain started with an empty URL does nothing: no page is
    fetched, the model is not asked, nothing is posted. It ends with one
    log line, which reports zero quizzes unless the budget is already
    spent. *)
Theorem empty_url_starts_nothing fuel email secret (w : @World F) :
  let r := solve_quiz_chain env settings (S fuel) "" email secret w in
  fst r = Some tt
  /\ exists m,
      trace (snd r) = EvLog m :: trace w
      /\ (m = LogChainTimedOut \/ m = LogCompletedQuizzes 0).
Proof.
  intros r. unfold r, solve_quiz_chain. cbn [chain_loop PyStr.truthy].
  unfold bind, Timer_init, Timer_enter, set_timer, time_time, ret.
  unfold bind. cbv beta iota zeta.
  match goal with
  | |- context [chain_end env 0 ?W] =>
      set (w0 := W); pose proof (chain_end_trace env 0 w0) as Hend;
      destruct (chain_end env 0 w0) as [[] we]
  end.
  cbn [fst snd] in *. split; [reflexivity|].
  eexists. split; [rewrite Hend; reflexivity|].
  destruct (fst (is_timeout env w0)); auto.
Qed.

(** X17. An iteration gives a next URL only after it has posted an
    answer: exactly one request, to a URL of the page that has the shape
    of a submit URL, carrying the two credentials of the caller and the
    URL of the quiz that was solved. *)
Theorem next_url_only_after_a_post url email secret tr (w : @World F) next :
  fst (solve_single_quiz env settings url email secret tr w) = Some next ->
  exists su a,
    is_submit_url su
    /\ posts (trace (snd (solve_single_quiz env settings url email secret tr w)))
       = EvPost su (mkPayload email secret url a) :: posts (trace w).
Proof.
  unfold solve_single_quiz, bind, log, emit, ret.
  pose proof (adds_posts (fetch_quiz_page env url) w
                (proj1 (fetch_quiz_page_quiet env url))) as P1.
  destruct (fetch_quiz_page env url w) as [[qd|] w1]; cbn [fst snd] in *;
    [|discriminate].
  pose proof (adds_posts (parse_quiz_task env qd) w1
                (proj1 (parse_quiz_task_quiet env qd))) as P2.
  pose proof (parse_quiz_task_fields env qd w1) as (ti0 & Hti & _ & Hsub & _).
  pose proof (submit_search_spec (qd_content qd)) as Hspec.
  destruct (parse_quiz_task env qd w1) as [[ti|] w2]; cbn [fst snd] in *;
    [|discriminate].
  injection Hti as <-.
  set (w2' := record _ w2).
  pose proof (adds_posts (solve_task env ti) w2'
                (proj1 (solve_task_quiet env ti))) as P3.
  destruct (solve_task env ti w2') as [[a|] w3]; cbn [fst snd] in *;
    [|discriminate].
  rewrite <- Hsub in Hspec.
  destruct (submit_url ti) as [su|]; [|discriminate].
  destruct (PyStr.truthy su); cbn [negb]; [|discriminate].
  set (w3' := record _ w3).
  pose proof (submit_answer_outcome env settings su email secret url a w3') as Hout.
  cbv zeta in Hout.
  destruct (Settings.max_payload_size settings <? _)%Z.
  - rewrite Hout. discriminate.
  - destruct Hout as (Hposts & _).
    destruct (submit_answer env settings su email secret url a w3')
      as [[v|] w4]; cbn [fst snd] in *; [|discriminate].
    intros _. exists su, a. split; [apply Hspec|].
    assert (Hlast : forall m : @LogMsg F,
               posts (trace (record (EvLog m) w4)) = posts (trace w4))
      by reflexivity.
    destruct (SubmitResponse.correct v); cbn [fst snd];
      rewrite Hlast, Hposts; unfold w3'; cbn [record trace posts filter is_post];
      fold (posts (trace w3)); rewrite P3; unfold w2';
      cbn [record trace posts filter is_post]; fold (posts (trace w2));
      now rewrite P2, P1.
Qed.

End EdgeFacts.

(** ** Dispatch and handlers: what the model is given, what is posted *)


Section HandlerClaims.

Context {F : Type}.
Variable env : @Collaborators F.
Variable settings : Settings.t.





End HandlerClaims.

(** ** The model at work: scenarios, and the claims at concrete inputs *)

(** C1, counterexample. The budget is one second and the fetch takes two.
    The submission of the first quiz completes and its verdict carries the
    URL of a second quiz, yet that URL is never fetched: the chain ends by
    the timeout. So a present, non-empty [url] does not always continue the
    chain. *)
Lemma next_url_is_not_fetched_after_the_budget :
  let run := solve_quiz_chain env_slow one_second 5 q1 me s3cret w0 in
  fst run = Some tt
  /\ posts (trace (snd run)) = [EvPost submit_here (mkPayload me s3cret q1 (AStr "5"))]
  /\ verdict_next (mkPayload me s3cret q1 (AStr "5"))
     = PostStatus 200 (Some (SubmitResponse.mk true (Some q2) None))
  /\ PyStr.truthy q2 = true
  /\ visits q2 (trace (snd run)) = false
  /\ hd_error (trace (snd run)) = Some (EvLog LogChainTimedOut).
Proof. vm_compute. repeat split; reflexivity. Qed.

(** C1, witness: the first quiz of two. Its verdict carries the URL of the
    second quiz, and the loop goes round with it. *)
Lemma verdict_url_decides_continuation_witness :
  let w := at_loop_head 180 in
  let s := announce env_two 1 q1 (snd (is_timeout env_two w)) in
  let r := solve_single_quiz env_two Settings.default q1 me s3cret (fst s) (snd s) in
  PyStr.truthy q1 = true
  /\ fst (is_timeout env_two w) = false
  /\ fst r = Some q2
  /\ chain_loop env_two Settings.default 2 me s3cret q1 0 w
     = chain_loop env_two Settings.default 1 me s3cret q2 1 (snd r).
Proof.
  intros w s r.
  refine (let H := verdict_url_decides_continuation env_two Settings.default
                     0 me s3cret q1 0 w _ _ _ _ _ _ _ _
                     (SubmitResponse.mk true (Some q2) None)
                     eq_refl eq_refl eq_refl eq_refl eq_refl eq_refl eq_refl eq_refl
          in _).
  destruct H as [Er H]. cbn [SubmitResponse.url PyStr.truthy q2] in H.
  destruct H as [H _].
  split; [reflexivity|]. split; [reflexivity|]. split.
  - fold s in Er. fold r in Er. rewrite Er. reflexivity.
  - exact H.
Defined.


(** C3, witness: under a ceiling of ten bytes, the payload of ninety-six
    bytes is not posted. *)
Lemma oversized_payload_is_never_posted_witness :
  (Settings.max_payload_size tiny_ceiling
   < Z.of_nat (get_payload_size env_sum (mkPayload me s3cret q1 (AStr "5"))))%Z
  /\ submit_answer env_sum tiny_ceiling submit_here me s3cret q1 (AStr "5") w0
     = (None, record (EvLog (LogPayloadTooLarge 96)) w0)
  /\ posts (trace (snd (submit_answer env_sum tiny_ceiling submit_here
                          me s3cret q1 (AStr "5") w0))) = [].
Proof.
  assert (H : (Settings.max_payload_size tiny_ceiling
               < Z.of_nat (get_payload_size env_sum (mkPayload me s3cret q1 (AStr "5"))))%Z)
    by (vm_compute; reflexivity).
  destruct (oversized_payload_is_never_posted env_sum tiny_ceiling
              submit_here me s3cret q1 (AStr "5") w0 H) as (E & P & _).
  split; [exact H|]. split; [exact E | exact P].
Defined.

(** C4, at the failing input: the page links to [notes.txt] and then to
    [data.csv]. Both are downloaded; the analysis handler is chosen, but it
    is given the first file, which is neither CSV nor JSON, under the tag
    [json], and the iteration fails. *)
Theorem analysis_handler_is_given_the_first_file :
  option_map file_urls (fst (parse_quiz_task env_notes (quiz_data_of env_notes) w0))
  = Some ["notes.txt"; "data.csv"]
  /\ fst (download_all env_notes ["notes.txt"; "data.csv"] w0)
     = ["downloads/notes.txt"; "downloads/data.csv"]
  /\ dispatch page_sum ["downloads/notes.txt"; "downloads/data.csv"]
     = Some (UseAnalysis "downloads/notes.txt" "json")
  /\ PyStr.endswith_any [".csv"; ".json"] "downloads/notes.txt" = false
  /\ PyStr.endswith ".csv" "downloads/data.csv" = true
  /\ fst (solve_single_quiz env_notes Settings.default q1 me s3cret 0%Q w0) = None
  /\ hd_error (trace (snd (solve_single_quiz env_notes Settings.default
                             q1 me s3cret 0%Q w0)))
     = Some (EvLog LogSolveFailed).
Proof. vm_compute. repeat split; reflexivity. Qed.

(** C5, counterexample: a link whose target carries a query string after
    the extension is collected, although it does not end in an extension. *)
Lemma link_not_ending_in_an_extension_is_collected :
  option_map file_urls (fst (parse_quiz_task env_links (quiz_data_of env_links) w0))
  = Some ["report.pdf?download=1"]
  /\ soup_hrefs env_links (qd_content (quiz_data_of env_links))
     = ["report.pdf?download=1"; "about.html"]
  /\ PyStr.endswith_any data_file_extensions "report.pdf?download=1" = false.
Proof. vm_compute. repeat split; reflexivity. Qed.

(** C5, witness. *)
Lemma file_urls_are_links_containing_an_extension_witness :
  exists ti,
    fst (parse_quiz_task env_links (quiz_data_of env_links) w0) = Some ti
    /\ file_urls ti = ["report.pdf?download=1"]
    /\ In "report.pdf?download=1" (file_urls ti).
Proof.
  destruct (file_urls_are_links_containing_an_extension
              env_links (quiz_data_of env_links) w0) as (ti & E & Ef & Hin & _).
  exists ti. split; [exact E|]. split; [rewrite Ef; reflexivity|].
  apply Hin. split; [left; reflexivity|].
  exists ".pdf", "report". split; [left; reflexivity|].
  exists "?download=1". reflexivity.
Defined.



(** C7, counterexample. The only URL of the page is
    [https://quiz.example/submitted]: it has no [/submit] path component,
    its last component being [submitted], and it is taken for the submit
    URL all the same; the answer is posted to it. *)
Lemma url_without_a_submit_component_is_taken :
  let run := solve_single_quiz env_submitted Settings.default q1 me s3cret 0%Q w0 in
  option_map submit_url
    (fst (parse_quiz_task env_submitted (quiz_data_of env_submitted) w0))
  = Some (Some submitted_url)
  /\ has_path_component "submit" submitted_url = false
  /\ has_path_component "submitted" submitted_url = true
  /\ has_path_component "submit" submit_token = true
  /\ posts (trace (snd run))
     = [EvPost submitted_url (mkPayload me s3cret q1 (AStr "5"))].
Proof. vm_compute. repeat split; reflexivity. Qed.

(** C7, witness. A page with two submit URLs: the first is taken, with its
    token, up to the bracket that follows it. And a page with no submit URL:
    the task has none, nothing is posted and the loop ends after this
    iteration. *)
Lemma submit_url_is_first_match_else_no_submission_witness :
  let w := at_loop_head 180 in
  let s := announce env_no_submit 1 q1 (snd (is_timeout env_no_submit w)) in
  let r := solve_single_quiz env_no_submit Settings.default q1 me s3cret (fst s) (snd s) in
  PyStr.truthy q1 = true
  /\ fst (is_timeout env_token w) = false
  /\ (exists pre post,
         page_token = (pre ++ submit_token ++ post)%string
         /\ stops url_char post
         /\ (forall pre' u',
                is_submit_url u' -> occurs_at pre' u' page_token ->
                String.length pre <= String.length pre')
         /\ (forall u',
                is_submit_url u' -> occurs_at pre u' page_token ->
                String.length u' <= String.length submit_token))
  /\ fst (is_timeout env_no_submit w) = false
  /\ fst r = None
  /\ posts (trace (snd r)) = []
  /\ chain_loop env_no_submit Settings.default 1 me s3cret q1 0 w
     = (Some 1, record (EvLog LogChainCompleted) (snd r)).
Proof.
  intros w s r.
  refine (let H := submit_url_is_first_match_else_no_submission
                     env_token Settings.default 0 me s3cret q1 0 w _ _ _
                     (mkTaskInfo "What is 2+3?" page_token (Some submit_token) []
                        "<html></html>")
                     eq_refl eq_refl eq_refl eq_refl
          in _).
  refine (let H' := submit_url_is_first_match_else_no_submission
                      env_no_submit Settings.default 0 me s3cret q1 0 w _ _ _
                      (mkTaskInfo "What is 2+3?" "What is 2+3?" None [] "<html></html>")
                      eq_refl eq_refl eq_refl eq_refl
          in _).
  cbn [submit_url] in H, H'. cbv zeta in H'. fold s in H'. fold r in H'.
  destruct H as (_ & pre & post & E & Hstop & Hfirst & Hlong).
  destruct H' as (_ & Hr & Hp & Hc).
  split; [reflexivity|]. split; [reflexivity|]. split.
  - exists pre, post. split; [exact E|]. split; [exact Hstop|].
    split; [exact Hfirst | exact Hlong].
  - split; [reflexivity|]. repeat split; assumption.
Defined.

(** C7, an example of the search: the first submit URL of the text is
    taken, up to the character that cannot be part of a URL. *)
Example submit_url_example :
  option_map Re.group0
    (Re.search submit_pattern
       "Post to https://a.example/api/submit?token=abc> or http://b.example/submit")
  = Some "https://a.example/api/submit?token=abc".
Proof. reflexivity. Qed.






(** C6, at a reply that is not a number for [int]: a comma, the separator
    U+001C and the digit 5. [str.strip] leaves it as it is, the comma goes,
    and [int] does not skip the separator: the answer is the reply, as a
    string. *)
Example reply_with_a_separator_stays_a_string :
  parse_number env_sum (String "," (String (ascii_of_nat 28) "5"))
  = AStr (String "," (String (ascii_of_nat 28) "5"))
  /\ PyStr.int (String (ascii_of_nat 28) "5") = None
  /\ PyStr.int " 5" = Some 5%Z.
Proof. repeat split; reflexivity. Qed.

(** ** The added properties on the sample collaborators *)

(** X2, witness: a report behind a directory and a token is saved as
    [downloads/report.pdf], with or without the token. *)
Lemma download_destination_witness :
  PyStr.contains "/" "report.pdf" = false
  /\ file_path_of report_url = "downloads/report.pdf"
  /\ file_path_of "https://files.example/a/report.pdf" = "downloads/report.pdf".
Proof.
  pose proof (download_destination report_url "https://files.example/a"
                "report.pdf" "token=1" eq_refl eq_refl eq_refl) as (_ & H1 & H2).
  split; [reflexivity|]. split; [exact H1 | exact H2].
Defined.

(** X3, witness: the same small payload is refused under a ceiling of ten
    bytes and posted under the default ceiling. *)
Lemma payload_size_bounds_witness :
  (fst (submit_answer env_sum tiny_ceiling submit_here me s3cret q1 (AStr "5") w0)
   = None
   /\ posts (trace (snd (submit_answer env_sum tiny_ceiling submit_here
                           me s3cret q1 (AStr "5") w0))) = [])
  /\ posts (trace (snd (submit_answer env_sum Settings.default submit_here
                          me s3cret q1 (AStr "5") w0)))
     = [EvPost submit_here (mkPayload me s3cret q1 (AStr "5"))].
Proof.
  pose proof (@payload_size_bounds Q env_sum tiny_ceiling submit_here
                me s3cret q1 "5" w0) as H.
  pose proof (@payload_size_bounds Q env_sum Settings.default submit_here
                me s3cret q1 "5" w0) as H'.
  cbv zeta in H, H'.
  destruct H as (_ & H & _). destruct H' as (_ & _ & H').
  split.
  - apply H. vm_compute. reflexivity.
  - apply H'. vm_compute. discriminate.
Defined.

(** X5, witness: with navigations of two seconds and a budget of one
    second, two turns are enough for the chain to return. *)
Lemma chain_terminates_within_budget_witness :
  monotone_clock env_slow
  /\ navigation_sleeps env_slow
  /\ fst (solve_quiz_chain env_slow one_second 2 q1 me s3cret w0) = Some tt.
Proof.
  assert (Hmono : monotone_clock env_slow).
  { intros t past. simpl. unfold slow_navigation.
    destruct past as [|e past]; [lra|]. destruct e; lra. }
  assert (Hsleeps : navigation_sleeps env_slow).
  { intros t past url _. simpl. lra. }
  split; [exact Hmono|]. split; [exact Hsleeps|].
  apply (chain_terminates_within_budget env_slow one_second Hmono Hsleeps
           1 q1 me s3cret w0).
  simpl. lia.
Defined.

(** X7, witness: the chain of two quizzes reports two, with two POSTs and
    four calls of the model at most. *)
Lemma chain_accounting_witness :
  fst (chain_loop env_two Settings.default 2 me s3cret q1 0 (at_loop_head 180))
  = Some 2
  /\ exists new,
      trace (snd (chain_loop env_two Settings.default 2 me s3cret q1 0
                    (at_loop_head 180)))
      = (new ++ [])%list
      /\ 0 + weight solving_w new = 2
      /\ 2 <= 0 + 2
      /\ weight post_w new <= 2 - 0
      /\ weight chat_w new <= 2 * (2 - 0).
Proof.
  split; [vm_compute; reflexivity|].
  refine (chain_accounting env_two Settings.default 2 me s3cret q1 0
            (at_loop_head 180) _ 2 _).
  vm_compute. reflexivity.
Defined.

(** X8, at a page number of 4301 digits: a PDF was downloaded, [int]
    raises on the number, and no handler is chosen. *)
Example huge_page_number_has_no_handler :
  dispatch huge_page_reference [report_path] = None
  /\ option_map (fun m => String.length (page_group1 m))
       (Re.search page_pattern huge_page_reference) = Some 4301
  /\ dispatch "see page 2" [report_path] = Some (UsePdf report_path (Some 2%Z)).
Proof. vm_compute. repeat split; reflexivity. Qed.

(** X10, witness: of three links, the second cannot be downloaded; the
    files are the saved copies of the first and of the third. *)
Lemma download_all_spec_witness :
  fst (download_all env_missing_file [report_url; "missing.csv"; "data.csv"] w0)
  = ["downloads/report.pdf"; "downloads/data.csv"].
Proof.
  destruct (download_all_spec env_missing_file
              [report_url; "missing.csv"; "data.csv"] w0)
    as (_ & _ & _ & H).
  exact (H unless_missing (fun _ _ _ _ => eq_refl)).
Defined.

(** X11, witness: both pages of the report are read and the model is given
    both texts; in the torn report the second page cannot be read, so the
    third is not touched and there is no answer. *)
Lemma pdf_pages_are_read_in_order_witness :
  let whole := PDFProcessingHandler_handle env_pdf "Summarise the report"
                 report_path None w0 in
  let torn := PDFProcessingHandler_handle env_torn_pdf "Summarise the report"
                report_path None w0 in
  trace (snd whole)
  = [EvChat (asked_with_context
               ("PDF Content:" ++ nl ++ "first page" ++ nl ++ "second page")
               "Summarise the report");
     EvPdfPage report_path 1; EvPdfPage report_path 0; EvPdfOpen report_path]
  /\ fst torn = None
  /\ trace (snd torn)
     = [EvPdfPage report_path 1; EvPdfPage report_path 0; EvPdfOpen report_path].
Proof.
  intros whole torn.
  destruct (pdf_pages_are_read_in_order env_pdf "Summarise the report"
              report_path ["first page"; "second page"] [] w0) as (Hwhole & _).
  destruct (pdf_pages_are_read_in_order env_torn_pdf "Summarise the report"
              report_path ["first page"] [Some "third page"] w0) as (_ & Htorn & _).
  unfold whole, torn. rewrite (Hwhole eq_refl), (Htorn eq_refl).
  repeat split; reflexivity.
Defined.

(** X12, witness: a reply of one space is answered by the empty string. *)
Lemma solve_math_problem_answers_witness :
  fst (solve_math_problem env_blank "What is 2+3?" None w0) = Some (AStr "").
Proof.
  destruct (solve_math_problem_answers env_blank "What is 2+3?" None w0)
    as (messages & H).
  cbv zeta in H. destruct H as (_ & _ & H & _).
  apply (H " "); [reflexivity | discriminate | reflexivity].
Defined.

(** X14, witness: with a browser that starts, the handler visits the page,
    reads it and gives the model the whole of the short page. *)
Lemma scraping_handler_bounds_context_witness :
  PyStr.truthy q1 = true
  /\ trace (snd (DataScrapingHandler_handle env_sum always_starts
                   "What is 2+3?" (Some q1) w0))
     = [EvChat (asked_with_context ("HTML Content:" ++ nl ++ "<html></html>")
                  "What is 2+3?");
        EvPageContent; EvNavigate q1].
Proof.
  split; [reflexivity|].
  destruct (scraping_handler_bounds_context env_sum always_starts
              "What is 2+3?" q1 w0) as (_ & _ & _ & H).
  destruct (H eq_refl eq_refl) as (Hrun & _).
  rewrite Hrun. vm_compute. reflexivity.
Defined.

(** X15, witness: a timer entered at zero and left at five seconds shows
    five seconds from then on. *)
Lemma elapsed_is_frozen_after_exit_witness :
  let w' := snd (Timer_exit env_sum five_seconds_later) in
  elapsed env_sum w' = ((reading env_sum five_seconds_later - 0)%Q, w').
Proof.
  intros w'.
  refine (proj1 (elapsed_is_frozen_after_exit env_sum 0%Q five_seconds_later w'
                   eq_refl eq_refl) _).
  intros H. vm_compute in H. discriminate H.
Defined.

(** X17, witness: the first quiz of the chain of two leads to the second,
    after its answer was posted. *)
Lemma next_url_only_after_a_post_witness :
  exists su a,
    is_submit_url su
    /\ posts (trace (snd (solve_single_quiz env_two Settings.default
                            q1 me s3cret 180%Q (at_loop_head 180))))
       = EvPost su (mkPayload me s3cret q1 a) :: posts (trace (at_loop_head 180)).
Proof.
  refine (next_url_only_after_a_post env_two Settings.default q1 me s3cret
            180%Q (at_loop_head 180) q2 _).
  vm_compute. reflexivity.
Defined.
